(** * fink_client.consumer

    A shallow embedding of [fink_client/consumer.py]: the Kafka
    configuration builder [_get_kafka_config], the schema resolver
    [_get_alert_schema], the record decoder [_decode_avro_alert] and the
    [AlertConsumer] class ([__init__], [poll], [consume], [close]).

    Python dictionaries are finite maps with string keys, Python
    exceptions are values of [exn] carried by [result], and the functions
    that touch the outside (HTTP, files, standard output, the Kafka
    client, the Avro codec) run in a state-and-exception monad over
    [World], which also records every call that leaves the module in a
    trace. *)

From Stdlib Require Import ZArith String Ascii List Lia.
From Stdlib.Strings Require Import Byte.
From stdpp Require Import gmap strings list fin_maps pretty.

Set Warnings "-register-all".

Open Scope string_scope.

(** ** Python values, exceptions and results *)

(** What a [KafkaError] object holds: the numeric code and its text. *)
Record KafkaError := { kerr_code : Z; kerr_str : string }.

(** The subclasses of [requests.exceptions.RequestException] that
    [requests.get] raises by itself.  [HTTPError] is also a subclass, but
    only [Response.raise_for_status] raises it. *)
Inductive request_failure :=
| ReqTimeout
| ReqConnectionError
| ReqTooManyRedirects.

Inductive exn :=
| KeyError (key : string)
| RequestException (why : request_failure)
| OSError (path : string)
| JSONDecodeError
| SchemaParseException
| DecodeError
| ClientError (text : string)
| AlertError (message : string).

Inductive result (A : Type) :=
| Ok (a : A)
| Raise (e : exn).
Arguments Ok {A} a.
Arguments Raise {A} e.

#[global] Instance result_ret : MRet result := fun _ a => Ok a.
#[global] Instance result_bind : MBind result := fun _ _ f r =>
  match r with
  | Ok a => f a
  | Raise e => Raise e
  end.

(** The values that reach [str.format] in this module. *)
Inductive pyval :=
| PyNone
| PyStr (s : string)
| PyInt (z : Z)
| PyBuiltinMethod (name owner : string) (addr : N).

Definition hex_digit (d : N) : ascii :=
  match d with
  | 0%N => "0" | 1%N => "1" | 2%N => "2" | 3%N => "3"
  | 4%N => "4" | 5%N => "5" | 6%N => "6" | 7%N => "7"
  | 8%N => "8" | 9%N => "9" | 10%N => "a" | 11%N => "b"
  | 12%N => "c" | 13%N => "d" | 14%N => "e" | _ => "f"
  end%char.

Fixpoint hex_go (fuel : nat) (n : N) (acc : string) : string :=
  match fuel with
  | O => acc
  | S fuel' =>
      if (n =? 0)%N then acc
      else hex_go fuel' (n / 16)%N (String (hex_digit (n mod 16)%N) acc)
  end.

Definition hex (n : N) : string :=
  if (n =? 0)%N then "0" else hex_go (N.size_nat n) n "".

(** [str(v)]: a bound built-in method prints as its name, the type of the
    object it is bound to and that object's address, never as the value a
    call would return. *)
Definition py_str (v : pyval) : string :=
  match v with
  | PyNone => "None"
  | PyStr s => s
  | PyInt z => pretty z
  | PyBuiltinMethod name owner addr =>
      "<built-in method " ++ name ++ " of " ++ owner
        ++ " object at 0x" ++ hex addr ++ ">"
  end.

(** [template.format( *args )] for templates whose only fields are [{}]. *)
Fixpoint py_format (template : string) (args : list pyval) : string :=
  match template with
  | EmptyString => EmptyString
  | String "{" (String "}" rest) =>
      match args with
      | a :: args' => py_str a ++ py_format rest args'
      | [] => py_format rest []
      end
  | String c rest => String c (py_format rest args)
  end.

(** [sep.join(parts)] *)
Definition py_join (sep : string) (parts : list string) : string :=
  String.concat sep parts.

(** [s.split(sep)] for a one-character separator. *)
Fixpoint py_split_go (sep : ascii) (s cur : string) : list string :=
  match s with
  | EmptyString => [String.rev cur]
  | String c rest =>
      if Ascii.eqb c sep then String.rev cur :: py_split_go sep rest ""
      else py_split_go sep rest (String c cur)
  end.

Definition py_split (sep : ascii) (s : string) : list string :=
  py_split_go sep s "".

(** ** Dictionaries *)

(** [k in d] *)
Definition py_in {V} (k : string) (d : gmap string V) : bool :=
  bool_decide (is_Some (d !! k)).

(** [d[k]], which raises [KeyError] on a missing key. *)
Definition py_getitem {V} (d : gmap string V) (k : string) : result V :=
  match d !! k with
  | Some v => Ok v
  | None => Raise (KeyError k)
  end.

(** [d.update(other)]: the entries of [other] win. *)
Definition py_update {V} (d other : gmap string V) : gmap string V :=
  other ∪ d.

(** ** Configuration builder *)

Definition fink_servers : list string :=
  ["localhost:9093"; "localhost:9094"; "localhost:9095"].

Definition _get_kafka_config (config : gmap string string)
  : result (gmap string string) :=
  let kafka_config : gmap string string := ∅ in
  let default_config : gmap string string :=
    {["auto.offset.reset" := "earliest"]} in
  kafka_config ←
    (if py_in "username" config && py_in "password" config then
       let kafka_config := <["security.protocol" := "sasl_plaintext"]> kafka_config in
       let kafka_config := <["sasl.mechanism" := "SCRAM-SHA-512"]> kafka_config in
       username ← py_getitem config "username";
       let kafka_config := <["sasl.username" := username]> kafka_config in
       password ← py_getitem config "password";
       mret (<["sasl.password" := password]> kafka_config)
     else mret kafka_config);
  group_id ← py_getitem config "group_id";
  let kafka_config := <["group.id" := group_id]> kafka_config in
  let kafka_config := py_update kafka_config default_config in
  if py_in "bootstrap.servers" config then
    servers ← py_getitem config "bootstrap.servers";
    mret (<["bootstrap.servers" := servers]> kafka_config)
  else
    mret (<["bootstrap.servers" :=
              py_format "{}" [PyStr (py_join "," fink_servers)]]> kafka_config).

(** ** Paths *)

(** [os.path.dirname(p)]: everything before the last slash. *)
Definition os_path_dirname (p : string) : string :=
  match List.rev (py_split "/" p) with
  | [] | [_] => ""
  | _ :: before =>
      let head := py_join "/" (List.rev before) in
      if String.eqb head "" then "/" else head
  end.

(** [os.path.join(a, b)] *)
Definition os_path_join (a b : string) : string :=
  if String.prefix "/" b then b
  else if String.eqb a "" then b
  else if Ascii.eqb (List.last (list_ascii_of_string a) "/"%char) "/" then a ++ b
  else a ++ "/" ++ b.

(** The components of a normalised path, innermost first: [.] and empty
    components vanish, [..] removes the component before it, and stays
    only at the front of a relative path. *)
Fixpoint normpath_go (absolute : bool) (parts stack : list string) : list string :=
  match parts with
  | [] => stack
  | part :: parts' =>
      if String.eqb part "" || String.eqb part "." then
        normpath_go absolute parts' stack
      else if String.eqb part ".." then
        match stack with
        | [] => normpath_go absolute parts' (if absolute then [] else [".."])
        | top :: below =>
            if String.eqb top ".." then normpath_go absolute parts' (part :: stack)
            else normpath_go absolute parts' below
        end
      else normpath_go absolute parts' (part :: stack)
  end.

(** [os.path.normpath(p)] *)
Definition os_path_normpath (p : string) : string :=
  let absolute := String.prefix "/" p in
  let body := py_join "/" (List.rev (normpath_go absolute (py_split "/" p) [])) in
  if absolute then "/" ++ body
  else if String.eqb body "" then "." else body.

(** [os.path.abspath(p)] in a process whose working directory is [cwd]. *)
Definition os_path_abspath (cwd p : string) : string :=
  os_path_normpath (if String.prefix "/" p then p else os_path_join cwd p).

(** What [os.path.join] puts before a relative second part: nothing,
    or something that ends with a slash. *)
Definition slash_ended (z : string) : Prop := z = "" ∨ ∃ front, z = front ++ "/".

(** ** Messages and byte streams *)

(** A [confluent_kafka.Message].  Every accessor may answer [None];
    [msg_id] is the address of the Python object, which is what the text
    of one of its bound methods shows. *)
Record Message := {
  msg_id : N;
  msg_error : option KafkaError;
  msg_topic : option string;
  msg_partition : option Z;
  msg_offset : option Z;
  msg_key : option (list byte);
  msg_value : option (list byte)
}.

(** An [io.BytesIO]: its content and the position of the next read. *)
Record BytesIO := { bio_buf : list byte; bio_pos : nat }.

(** [io.BytesIO(initial)]: [None] gives an empty stream. *)
Definition BytesIO_new (initial : option (list byte)) : BytesIO :=
  {| bio_buf := default [] initial; bio_pos := 0 |}.

(** [fo.seek(offset)] *)
Definition seek (fo : BytesIO) (offset : nat) : BytesIO :=
  {| bio_buf := bio_buf fo; bio_pos := offset |}.

(** What a read at the current position still has before it. *)
Definition bio_rest (fo : BytesIO) : list byte :=
  drop (bio_pos fo) (bio_buf fo).

(** The truth value of what [msg.error()] returns: [None] is false, and a
    [KafkaError], which defines neither [__bool__] nor [__len__], is
    true. *)
Definition py_truthy_error (e : option KafkaError) : bool :=
  match e with
  | None => false
  | Some _ => true
  end.

Definition py_opt_str (o : option string) : pyval :=
  match o with
  | None => PyNone
  | Some s => PyStr s
  end.

Definition py_opt_int (o : option Z) : pyval :=
  match o with
  | None => PyNone
  | Some z => PyInt z
  end.

(** A line feed, Python's [\n]. *)
Definition nl : string := String "010" "".

(** ** The libraries the module calls *)

(** [json] and [fastavro]: loading a JSON text, validating a schema, and
    reading one datum, without header, from the bytes a stream has left.
    [py_none] is Python's [None] among the decoded values. *)
Class SchemaCodec := {
  Json : Type;
  Schema : Type;
  Datum : Type;
  py_none : Datum;
  json_loads : string → option Json;
  parse_schema : Json → option Schema;
  read_datum : Schema → list byte → option Datum
}.

(** [confluent_kafka]: [Kafka] is the state of the client library and of
    the brokers behind it, [Consumer] a reference to one of its consumer
    objects, [Time] the type of the timeouts, which this module hands
    over unread.  A call either answers or raises with a text. *)
Class BrokerClient := {
  Kafka : Type;
  Consumer : Type;
  Time : Type;
  kafka_Consumer : gmap string string → Kafka → (string + Consumer) * Kafka;
  kafka_subscribe : Consumer → list string → Kafka → (string + unit) * Kafka;
  kafka_poll : Consumer → Time → Kafka → (string + option Message) * Kafka;
  kafka_consume : Consumer → Z → Time → Kafka → (string + list Message) * Kafka;
  kafka_close : Consumer → Kafka → (string + unit) * Kafka
}.

(** ** The world *)

(** What the schema URL does when asked: it answers with a status code
    and a body, or the request fails. *)
Inductive http_outcome :=
| HttpResponse (status_code : Z) (text : string)
| HttpFailure (why : request_failure).

Record Response := { status_code : Z; text : string }.

Section Consumer.

Context `{Codec : SchemaCodec} `{Broker : BrokerClient}.

(** The calls that leave the module, in the order they are made. *)
Inductive Event :=
| EvHttpGet (url : string) (timeout : Z)
| EvOpenWrite (path : string)
| EvOpenRead (path : string)
| EvPrint (line : string)
| EvParseSchema
| EvDecode (schema : Schema) (input : list byte)
| EvConsumerNew (config : gmap string string)
| EvSubscribe (topics : list string)
| EvPoll (timeout : Time)
| EvConsume (num_messages : Z) (timeout : Time)
| EvClose.

(** [module_file] is [__file__], [cwd] the working directory, [remote]
    what the schema URL does now, [files] the text files by path,
    [unwritable] the paths that [open(path, "w")] fails on, [stdout] the
    lines printed, [kafka] the client library's state. *)
Record World := {
  module_file : string;
  cwd : string;
  remote : http_outcome;
  files : gmap string string;
  unwritable : gset string;
  stdout : list string;
  kafka : Kafka;
  trace : list Event
}.

Definition M (A : Type) : Type := World → result A * World.

#[global] Instance M_ret : MRet M := fun _ a w => (Ok a, w).
#[global] Instance M_bind : MBind M := fun _ _ f m w =>
  match m w with
  | (Ok a, w') => f a w'
  | (Raise e, w') => (Raise e, w')
  end.

Definition raise {A} (e : exn) : M A := fun w => (Raise e, w).

Definition lift {A} (r : result A) : M A := fun w => (r, w).

(** [try: body except ...: handler]: [handler e] is [None] when no
    clause matches [e], which then goes on to the caller. *)
Definition try_except {A} (body : M A) (handler : exn → option (M A)) : M A :=
  fun w =>
    match body w with
    | (Ok a, w') => (Ok a, w')
    | (Raise e, w') =>
        match handler e with
        | Some h => h w'
        | None => (Raise e, w')
        end
    end.

(** [for x in xs: acc = body(acc, x)] *)
Fixpoint for_in {A B} (xs : list A) (acc : B) (body : B → A → M B) : M B :=
  match xs with
  | [] => mret acc
  | x :: xs' => acc' ← body acc x; for_in xs' acc' body
  end.

Definition emit (e : Event) (w : World) : World :=
  {| module_file := module_file w; cwd := cwd w; remote := remote w;
     files := files w; unwritable := unwritable w; stdout := stdout w;
     kafka := kafka w; trace := trace w ++ [e] |}.

Definition set_files (fs : gmap string string) (w : World) : World :=
  {| module_file := module_file w; cwd := cwd w; remote := remote w;
     files := fs; unwritable := unwritable w; stdout := stdout w;
     kafka := kafka w; trace := trace w |}.

Definition set_stdout (out : list string) (w : World) : World :=
  {| module_file := module_file w; cwd := cwd w; remote := remote w;
     files := files w; unwritable := unwritable w; stdout := out;
     kafka := kafka w; trace := trace w |}.

Definition set_kafka (k : Kafka) (w : World) : World :=
  {| module_file := module_file w; cwd := cwd w; remote := remote w;
     files := files w; unwritable := unwritable w; stdout := stdout w;
     kafka := k; trace := trace w |}.

(** [print(line)] *)
Definition print (line : string) : M unit := fun w =>
  (Ok (), set_stdout (stdout w ++ [line]) (emit (EvPrint line) w)).

(** [requests.get(url, timeout=timeout)]: any answer, whatever its status
    code, comes back as a response; only a failed request raises. *)
Definition requests_get (url : string) (timeout : Z) : M Response := fun w =>
  let w' := emit (EvHttpGet url timeout) w in
  match remote w with
  | HttpResponse code body => (Ok {| status_code := code; text := body |}, w')
  | HttpFailure why => (Raise (RequestException why), w')
  end.

(** [with open(path, "w") as f: f.write(content)] *)
Definition write_file (path content : string) : M unit := fun w =>
  let w' := emit (EvOpenWrite path) w in
  if bool_decide (path ∈ unwritable w) then (Raise (OSError path), w')
  else (Ok (), set_files (<[path := content]> (files w)) w').

(** [with open(path) as f: f.read()] *)
Definition read_file (path : string) : M string := fun w =>
  let w' := emit (EvOpenRead path) w in
  match files w !! path with
  | Some content => (Ok content, w')
  | None => (Raise (OSError path), w')
  end.

(** [json.load(f)] on the content read from [f]. *)
Definition json_load (content : string) : M Json :=
  match json_loads content with
  | Some j => mret j
  | None => raise JSONDecodeError
  end.

(** [fastavro.parse_schema(schema)] *)
Definition fastavro_parse_schema (schema : Json) : M Schema := fun w =>
  let w' := emit EvParseSchema w in
  match parse_schema schema with
  | Some s => (Ok s, w')
  | None => (Raise SchemaParseException, w')
  end.

(** [fastavro.schemaless_reader(fo, schema)]: reads from the position
    the stream is at. *)
Definition schemaless_reader (fo : BytesIO) (schema : Schema) : M Datum := fun w =>
  let w' := emit (EvDecode schema (bio_rest fo)) w in
  match read_datum schema (bio_rest fo) with
  | Some d => (Ok d, w')
  | None => (Raise DecodeError, w')
  end.

(** A call into [confluent_kafka]. *)
Definition kafka_call {A} (ev : Event) (call : Kafka → (string + A) * Kafka) : M A :=
  fun w =>
    let w' := emit ev w in
    match call (kafka w) with
    | (inr a, k) => (Ok a, set_kafka k w')
    | (inl msg, k) => (Raise (ClientError msg), set_kafka k w')
    end.

(** [os.path.abspath(os.path.join(os.path.dirname(__file__), rel))] *)
Definition beside_module (rel : string) : M string := fun w =>
  (Ok (os_path_abspath (cwd w)
         (os_path_join (os_path_dirname (module_file w)) rel)), w).

(** ** Schema resolver *)

Definition schema_url : string :=
  "https://raw.github.com/astrolabsoftware/fink-broker/master/schemas/distribution_schema.avsc".

Definition _get_alert_schema (schema_path : option string) : M Schema :=
  schema_path ←
    match schema_path with
    | None =>
        try_except
          (print "Getting schema from fink servers...";;
           let filename := List.last (py_split "/" schema_url) "" in
           r ← requests_get schema_url 1;
           schema_path ← beside_module (py_format "../schemas/{}" [PyStr filename]);
           write_file schema_path (text r);;
           mret schema_path)
          (fun e =>
             match e with
             | RequestException _ =>
                 Some (schema_path ← beside_module "../schemas/fink_alert_schema.avsc";
                       let m := py_format
                                  ("Could not obtain schema from fink servers" ++ nl
                                   ++ "Using default schema available at: {}")
                                  [PyStr schema_path] in
                       print m;;
                       mret schema_path)
             | _ => None
             end)
    | Some given => mret given
    end;
  content ← read_file schema_path;
  schema ← json_load content;
  fastavro_parse_schema schema.

(** ** Record decoder *)

Definition _decode_avro_alert (avro_alert : BytesIO) (schema : Schema) : M Datum :=
  let avro_alert := seek avro_alert 0 in
  schemaless_reader avro_alert schema.

(** ** The consumer *)

(** The attributes [__init__] sets; no method assigns to one of them
    afterwards.  [_consumer] refers to an object of the client library,
    whose state lives in [kafka]. *)
Record AlertConsumer := {
  _topics : list string;
  _kafka_config : gmap string string;
  _parsed_schema : Schema;
  _consumer : Consumer
}.

Definition __init__ (topics : list string) (config : gmap string string)
    (schema : option string) : M AlertConsumer :=
  kafka_config ← lift (_get_kafka_config config);
  parsed_schema ← _get_alert_schema schema;
  consumer ← kafka_call (EvConsumerNew kafka_config) (kafka_Consumer kafka_config);
  kafka_call (EvSubscribe topics) (kafka_subscribe consumer topics);;
  mret {| _topics := topics; _kafka_config := kafka_config;
          _parsed_schema := parsed_schema; _consumer := consumer |}.

Definition __enter__ (self : AlertConsumer) : M AlertConsumer := mret self.

Definition __exit__ (self : AlertConsumer) : M unit :=
  kafka_call EvClose (kafka_close (_consumer self)).

(** The text [poll] raises with: [msg.error] and [msg.key] are named but
    not called, so the bound methods themselves are formatted. *)
Definition poll_error_message (msg : Message) : string :=
  py_format
    ("Error: {}" ++ nl ++ "topic: {}[{}] at offset: {} with key: {}")
    [PyBuiltinMethod "error" "cimpl.Message" (msg_id msg);
     py_opt_str (msg_topic msg);
     py_opt_int (msg_partition msg);
     py_opt_int (msg_offset msg);
     PyStr (py_str (PyBuiltinMethod "key" "cimpl.Message" (msg_id msg)))].

Definition poll (self : AlertConsumer) (timeout : Time)
  : M (option string * Datum) :=
  msg ← kafka_call (EvPoll timeout) (kafka_poll (_consumer self) timeout);
  match msg with
  | None => mret (None, py_none)
  | Some msg =>
      if py_truthy_error (msg_error msg) then
        let error_message := poll_error_message msg in
        raise (AlertError error_message)
      else
        let topic := msg_topic msg in
        let avro_alert := BytesIO_new (msg_value msg) in
        alert ← _decode_avro_alert avro_alert (_parsed_schema self);
        mret (topic, alert)
  end.

Definition consume (self : AlertConsumer) (num_alerts : Z) (timeout : Time)
  : M (list (option string * Datum)) :=
  let alerts : list (option string * Datum) := [] in
  msg_list ← kafka_call (EvConsume num_alerts timeout)
                        (kafka_consume (_consumer self) num_alerts timeout);
  for_in msg_list alerts (fun alerts msg =>
    let topic := msg_topic msg in
    let avro_alert := BytesIO_new (msg_value msg) in
    alert ← _decode_avro_alert avro_alert (_parsed_schema self);
    mret (alerts ++ [(topic, alert)])%list).

Definition close (self : AlertConsumer) : M unit :=
  kafka_call EvClose (kafka_close (_consumer self)).

(** ** Notions the properties are stated with *)

Implicit Types (w : World) (self : AlertConsumer) (msg : Message).

(** The bytes [poll] and [consume] hand to the decoder for a message. *)
Definition payload (msg : Message) : list byte := default [] (msg_value msg).

(** The message with another key. *)
Definition with_key (key : option (list byte)) msg : Message :=
  {| msg_id := msg_id msg; msg_error := msg_error msg; msg_topic := msg_topic msg;
     msg_partition := msg_partition msg; msg_offset := msg_offset msg;
     msg_key := key; msg_value := msg_value msg |}.

(** The pair [consume] appends for a message: its topic and the datum its
    payload decodes to.  The error of the message has no part in it. *)
Definition pair_of (schema : Schema) msg (p : option string * Datum) : Prop :=
  p.1 = msg_topic msg ∧ read_datum schema (payload msg) = Some p.2.

Definition decode_events (schema : Schema) (msgs : list Message) : list Event :=
  map (fun msg => EvDecode schema (payload msg)) msgs.

Definition emit_all (evs : list Event) w : World :=
  fold_left (fun w ev => emit ev w) evs w.

Definition consume_body self (alerts : list (option string * Datum)) msg
  : M (list (option string * Datum)) :=
  let topic := msg_topic msg in
  let avro_alert := BytesIO_new (msg_value msg) in
  alert ← _decode_avro_alert avro_alert (_parsed_schema self);
  mret (alerts ++ [(topic, alert)])%list.

Definition getting_notice : string := "Getting schema from fink servers...".

(** The file a fetched schema is written to. *)
Definition schema_cache_path w : string :=
  os_path_abspath (cwd w)
    (os_path_join (os_path_dirname (module_file w))
       "../schemas/distribution_schema.avsc").

(** The schema file that comes with the module. *)
Definition default_schema_path w : string :=
  os_path_abspath (cwd w)
    (os_path_join (os_path_dirname (module_file w))
       "../schemas/fink_alert_schema.avsc").

Definition fallback_notice w : string :=
  "Could not obtain schema from fink servers" ++ nl
  ++ "Using default schema available at: " ++ default_schema_path w.

(** The end of [_get_alert_schema]: read the file, load it, validate. *)
Definition load_schema (path : string) : M Schema :=
  content ← read_file path;
  schema ← json_load content;
  fastavro_parse_schema schema.

(** What a schema text parses to. *)
Definition parsed (content : string) : result Schema :=
  match json_loads content with
  | None => Raise JSONDecodeError
  | Some j =>
      match parse_schema j with
      | Some s => Ok s
      | None => Raise SchemaParseException
      end
  end.

(** A call of a method on an instance. *)
Inductive call :=
| CallPoll (timeout : Time)
| CallConsume (num_alerts : Z) (timeout : Time)
| CallClose
| CallEnter
| CallExit.

(** The world after the call, whether it returned or raised. *)
Definition run_call self (c : call) w : World :=
  match c with
  | CallPoll timeout => snd (poll self timeout w)
  | CallConsume n timeout => snd (consume self n timeout w)
  | CallClose => snd (close self w)
  | CallEnter => snd (__enter__ self w)
  | CallExit => snd (__exit__ self w)
  end.

(** The worlds an instance lives through: between its calls anything but
    the trace may change, what the schema URL answers and the schema
    files included. *)
Inductive lifetime self : World → World → Prop :=
| lifetime_start w : lifetime self w w
| lifetime_call w w' c :
    lifetime self w w' → lifetime self w (run_call self c w')
| lifetime_elsewhere w w' w'' :
    lifetime self w w' → trace w'' = trace w' → lifetime self w w''.

(** The events that resolve a schema. *)
Definition resolves (ev : Event) : bool :=
  match ev with
  | EvHttpGet _ _ | EvOpenWrite _ | EvOpenRead _ | EvParseSchema => true
  | _ => false
  end.

Definition is_parse (ev : Event) : bool :=
  match ev with
  | EvParseSchema => true
  | _ => false
  end.

(** What a method call may do: ask the client, and decode with the
    schema of the instance. *)
Definition method_event self (ev : Event) : Prop :=
  resolves ev = false
  ∧ ∀ schema input, ev = EvDecode schema input → schema = _parsed_schema self.

(** The events schema resolution is made of. *)
Definition resolution_event (ev : Event) : Prop :=
  match ev with
  | EvHttpGet _ _ | EvOpenWrite _ | EvOpenRead _ | EvPrint _ | EvParseSchema => True
  | _ => False
  end.

(** [with self as c: body(c)]: [__enter__] gives the value bound,
    [__exit__] runs when the body returns and when it raises, and as
    [__exit__] returns [None] the exception of the body is raised again;
    an exception of [__exit__] itself takes its place. *)
Definition with_consumer {A} self (body : AlertConsumer → M A) : M A :=
  c ← __enter__ self;
  ((fun w =>
      match body c w with
      | (Ok a, w') => (__exit__ self;; mret a) w'
      | (Raise e, w') =>
          match __exit__ self w' with
          | (Ok _, w'') => (Raise e, w'')
          | (Raise e', w'') => (Raise e', w'')
          end
      end) : M A).

End Consumer.

(** ** A model of the codec: Avro's binary encoding

    [fastavro] is a library the module calls, not part of it.  To run the
    decoder on real buffers, this module models the schemaless writer and
    reader for the schema types without floating point and without maps.
    A Python [str] is kept as its UTF-8 bytes, and a record as the list
    of its entries in the order of the schema's fields. *)
Module Avro.

#[local] Open Scope Z_scope.

Inductive schema :=
| SNull
| SBoolean
| SInt
| SLong
| SBytes
| SString
| SFixed (name : string) (size : nat)
| SEnum (name : string) (symbols : list string)
| SArray (items : schema)
| SUnion (branches : list schema)
| SRecord (name : string) (fields : list (string * schema)).

Inductive datum :=
| DNone
| DBool (b : bool)
| DInt (z : Z)
| DBytes (bs : list byte)
| DStr (s : string)
| DList (items : list datum)
| DDict (entries : list (string * datum)).

Definition Z_of_byte (b : byte) : Z := Z.of_N (Byte.to_N b).

Definition byte_of_Z (z : Z) : byte :=
  default x00 (Byte.of_N (Z.to_N (z mod 256))).

(** *** Longs: zig-zag, then seven bits a byte, low bits first *)

Fixpoint write_varint (fuel : nat) (datum : Z) : option (list byte) :=
  match fuel with
  | O => None
  | S fuel' =>
      if Z.land datum (Z.lnot 127) =? 0 then Some [byte_of_Z datum]
      else
        rest ← write_varint fuel' (Z.shiftr datum 7);
        Some (byte_of_Z (Z.lor (Z.land datum 127) 128) :: rest)
  end.

(** [write_long]: a zig-zagged datum is not negative, and the loop ends
    after one byte for every seven bits of it. *)
Definition write_long (datum : Z) : option (list byte) :=
  let datum := Z.lxor (Z.shiftl datum 1) (Z.shiftr datum 63) in
  write_varint (S (Z.to_nat (Z.log2 datum))) datum.

Fixpoint read_varint (bs : list byte) (n shift : Z) : option (Z * list byte) :=
  match bs with
  | [] => None
  | c :: bs' =>
      let b := Z_of_byte c in
      let n := Z.lor n (Z.shiftl (Z.land b 127) shift) in
      if Z.land b 128 =? 0 then Some (n, bs')
      else read_varint bs' n (shift + 7)
  end.

Definition read_long (bs : list byte) : option (Z * list byte) :=
  match bs with
  | [] => None
  | c :: bs' =>
      let b := Z_of_byte c in
      let n := Z.land b 127 in
      '(n, rest) ← (if Z.land b 128 =? 0 then Some (n, bs')
                    else read_varint bs' n 7);
      Some (Z.lxor (Z.shiftr n 1) (- Z.land n 1), rest)
  end.

(** [fo.read(size)]: at most [size] bytes, all that is left when [size]
    is negative. *)
Definition read_bytes (size : Z) (bs : list byte) : list byte * list byte :=
  if size <? 0 then (bs, [])
  else (take (Z.to_nat size) bs, drop (Z.to_nat size) bs).

(** *** UTF-8 *)

Definition is_cont (b : byte) : bool :=
  (128 <=? Z_of_byte b) && (Z_of_byte b <=? 191).

Definition in_range (lo hi : Z) (b : byte) : bool :=
  (lo <=? Z_of_byte b) && (Z_of_byte b <=? hi).

(** Whether the bytes are the UTF-8 encoding of a text. *)
Fixpoint utf8_valid_go (fuel : nat) (bs : list byte) : bool :=
  match fuel with
  | O => match bs with [] => true | _ => false end
  | S fuel' =>
      match bs with
      | [] => true
      | a :: r1 =>
          if in_range 0 127 a then utf8_valid_go fuel' r1
          else match r1 with
          | [] => false
          | b :: r2 =>
              if in_range 194 223 a then is_cont b && utf8_valid_go fuel' r2
              else match r2 with
              | [] => false
              | c :: r3 =>
                  let second :=
                    if in_range 224 224 a then in_range 160 191 b
                    else if in_range 237 237 a then in_range 128 159 b
                    else is_cont b in
                  if in_range 224 239 a then
                    second && is_cont c && utf8_valid_go fuel' r3
                  else match r3 with
                  | [] => false
                  | d :: r4 =>
                      let second :=
                        if in_range 240 240 a then in_range 144 191 b
                        else if in_range 244 244 a then in_range 128 143 b
                        else is_cont b in
                      in_range 240 244 a && second && is_cont c && is_cont d
                        && utf8_valid_go fuel' r4
                  end
              end
          end
      end
  end.

Definition utf8_valid (bs : list byte) : bool :=
  utf8_valid_go (length bs) bs.

(** *** Validation: what the writer accepts for a schema *)

Definition in_bits (bits : Z) (z : Z) : bool :=
  (- 2 ^ (bits - 1) <=? z) && (z <? 2 ^ (bits - 1)).

Fixpoint validate (s : schema) (d : datum) {struct s} : bool :=
  match s, d with
  | SNull, DNone => true
  | SBoolean, DBool _ => true
  | SInt, DInt z => in_bits 32 z
  | SLong, DInt z => in_bits 64 z
  | SBytes, DBytes _ => true
  | SString, DStr t => utf8_valid (list_byte_of_string t)
  | SFixed _ size, DBytes bs => bool_decide (length bs = size)%nat
  | SEnum _ symbols, DStr t => bool_decide (t ∈ symbols)
  | SArray items, DList ds => forallb (validate items) ds
  | SUnion branches, d =>
      (fix any (bs : list schema) : bool :=
         match bs with
         | [] => false
         | b :: bs' => validate b d || any bs'
         end) branches
  | SRecord _ fields, DDict entries =>
      (fix all (fs : list (string * schema)) (es : list (string * datum)) : bool :=
         match fs, es with
         | [], [] => true
         | (name, t) :: fs', (key, v) :: es' =>
             String.eqb name key && validate t v && all fs' es'
         | _, _ => false
         end) fields entries
  | _, _ => false
  end.

(** *** Writer *)

(** [bool(d)] *)
Definition truthy (d : datum) : bool :=
  match d with
  | DNone => false
  | DBool b => b
  | DInt z => negb (z =? 0)
  | DBytes bs => negb (bool_decide (bs = []))
  | DStr t => negb (String.eqb t "")
  | DList ds => negb (bool_decide (length ds = 0%nat))
  | DDict es => negb (bool_decide (length es = 0%nat))
  end.

(** [symbols.index(t)] *)
Fixpoint py_list_index (symbols : list string) (t : string) : option nat :=
  match symbols with
  | [] => None
  | s :: symbols' =>
      if String.eqb s t then Some 0%nat
      else S <$> py_list_index symbols' t
  end.

(** [datum.get(name)] *)
Fixpoint dict_get (entries : list (string * datum)) (name : string) : option datum :=
  match entries with
  | [] => None
  | (key, v) :: entries' =>
      if String.eqb key name then Some v else dict_get entries' name
  end.

(** ['null' in field['type']] *)
Definition has_null (t : schema) : bool :=
  match t with
  | SNull => true
  | SUnion branches =>
      existsb (fun b => match b with SNull => true | _ => false end) branches
  | _ => false
  end.

(** The branch of a union the writer takes for a datum: the first
    candidate that validates ends the search, unless it is a record;
    among records the one with most fields wins, the earlier on a tie. *)
Fixpoint union_choose (ok : schema → bool) (candidates : list schema)
    (index : nat) (best : option nat) (most_fields : Z) : option nat :=
  match candidates with
  | [] => best
  | candidate :: candidates' =>
      if ok candidate then
        match candidate with
        | SRecord _ fields =>
            let n := Z.of_nat (length fields) in
            if most_fields <? n
            then union_choose ok candidates' (S index) (Some index) n
            else union_choose ok candidates' (S index) best most_fields
        | _ => Some index
        end
      else union_choose ok candidates' (S index) best most_fields
  end.

Fixpoint write_items {A} (write_item : A → option (list byte)) (xs : list A)
  : option (list byte) :=
  match xs with
  | [] => Some []
  | x :: xs' =>
      head ← write_item x;
      tail ← write_items write_item xs';
      Some (head ++ tail)%list
  end.

Fixpoint write_data (s : schema) (d : datum) {struct s} : option (list byte) :=
  match s with
  | SNull => Some []
  | SBoolean => Some [byte_of_Z (if truthy d then 1 else 0)]
  | SInt | SLong =>
      match d with
      | DInt z => write_long z
      | DBool b => write_long (if b then 1 else 0)
      | _ => None
      end
  | SBytes =>
      match d with
      | DBytes bs =>
          size ← write_long (Z.of_nat (length bs)); Some (size ++ bs)%list
      | _ => None
      end
  | SString =>
      match d with
      | DStr t =>
          let encoded := list_byte_of_string t in
          size ← write_long (Z.of_nat (length encoded));
          Some (size ++ encoded)%list
      | _ => None
      end
  | SFixed _ _ =>
      match d with
      | DBytes bs => Some bs
      | _ => None
      end
  | SEnum _ symbols =>
      match d with
      | DStr t => index ← py_list_index symbols t; write_long (Z.of_nat index)
      | _ => None
      end
  | SArray items =>
      match d with
      | DList ds =>
          body ← write_items (write_data items) ds;
          stop ← write_long 0;
          if bool_decide (0 < length ds)%nat then
            count ← write_long (Z.of_nat (length ds));
            Some (count ++ body ++ stop)%list
          else Some stop
      | _ => None
      end
  | SUnion branches =>
      index ← union_choose (fun b => validate b d) branches 0%nat None (-1);
      tag ← write_long (Z.of_nat index);
      body ← (fix at_index (bs : list schema) (i : nat) : option (list byte) :=
                match bs, i with
                | b :: _, O => write_data b d
                | _ :: bs', S i' => at_index bs' i'
                | [], _ => None
                end) branches index;
      Some (tag ++ body)%list
  | SRecord _ fields =>
      match d with
      | DDict entries =>
          (fix each (fs : list (string * schema)) : option (list byte) :=
             match fs with
             | [] => Some []
             | (name, t) :: fs' =>
                 head ← match dict_get entries name with
                        | Some v => write_data t v
                        | None => if has_null t then write_data t DNone else None
                        end;
                 tail ← each fs';
                 Some (head ++ tail)%list
             end) fields
      | _ => None
      end
  end.

(** *** Reader *)

(** The position [xs[i]] reads, a negative [i] counting from the end. *)
Definition py_index (len : nat) (i : Z) : option nat :=
  if 0 <=? i then
    if i <? Z.of_nat len then Some (Z.to_nat i) else None
  else
    if 0 <=? Z.of_nat len + i then Some (Z.to_nat (Z.of_nat len + i)) else None.

Fixpoint read_items {A} (read_item : list byte → option (A * list byte))
    (n : nat) (bs : list byte) : option (list A * list byte) :=
  match n with
  | O => Some ([], bs)
  | S n' =>
      '(x, bs) ← read_item bs;
      '(xs, bs) ← read_items read_item n' bs;
      Some (x :: xs, bs)
  end.

(** The blocks of an array: a count, negative when a byte size follows
    it, the items, and the next count, until a count of zero.  Every
    round but the last reads at least one byte, so [fuel] above the
    length of the input never runs out. *)
Fixpoint read_blocks {A} (read_item : list byte → option (A * list byte))
    (fuel : nat) (block_count : Z) (bs : list byte) (read : list A)
  : option (list A * list byte) :=
  match fuel with
  | O => None
  | S fuel' =>
      if block_count =? 0 then Some (read, bs)
      else
        '(block_count, bs) ←
          (if block_count <? 0
           then '(_, bs) ← read_long bs; Some (- block_count, bs)
           else Some (block_count, bs));
        '(items, bs) ← read_items read_item (Z.to_nat block_count) bs;
        '(next, bs) ← read_long bs;
        read_blocks read_item fuel' next bs (read ++ items)%list
  end.

Fixpoint read_data (s : schema) (bs : list byte) {struct s}
  : option (datum * list byte) :=
  match s with
  | SNull => Some (DNone, bs)
  | SBoolean =>
      match bs with
      | [] => None
      | b :: bs' => Some (DBool (negb (Z_of_byte b =? 0)), bs')
      end
  | SInt | SLong => '(z, bs) ← read_long bs; Some (DInt z, bs)
  | SBytes =>
      '(size, bs) ← read_long bs;
      let '(data, bs) := read_bytes size bs in
      Some (DBytes data, bs)
  | SString =>
      '(size, bs) ← read_long bs;
      let '(data, bs) := read_bytes size bs in
      if utf8_valid data then Some (DStr (string_of_list_byte data), bs)
      else None
  | SFixed _ size =>
      let '(data, bs) := read_bytes (Z.of_nat size) bs in
      Some (DBytes data, bs)
  | SEnum _ symbols =>
      '(index, bs) ← read_long bs;
      i ← py_index (length symbols) index;
      symbol ← symbols !! i;
      Some (DStr symbol, bs)
  | SArray items =>
      '(block_count, bs') ← read_long bs;
      '(ds, bs') ← read_blocks (read_data items) (S (length bs)) block_count bs' [];
      Some (DList ds, bs')
  | SUnion branches =>
      '(index, bs) ← read_long bs;
      i ← py_index (length branches) index;
      (fix at_index (cs : list schema) (i : nat) : option (datum * list byte) :=
         match cs, i with
         | c :: _, O => read_data c bs
         | _ :: cs', S i' => at_index cs' i'
         | [], _ => None
         end) branches i
  | SRecord _ fields =>
      '(entries, bs) ←
        (fix each (fs : list (string * schema)) (bs : list byte)
           : option (list (string * datum) * list byte) :=
           match fs with
           | [] => Some ([], bs)
           | (name, t) :: fs' =>
               '(v, bs) ← read_data t bs;
               '(entries, bs) ← each fs' bs;
               Some ((name, v) :: entries, bs)
           end) fields bs;
      Some (DDict entries, bs)
  end.

(** *** The schemas and data the model is exact on *)

(** A length Python can hold: below [sys.maxsize], two to the 63. *)
Definition fits (n : nat) : bool := Z.of_nat n <? 2 ^ 63.

Definition is_union (s : schema) : bool :=
  match s with SUnion _ => true | _ => false end.

Definition is_array (s : schema) : bool :=
  match s with SArray _ => true | _ => false end.

Definition is_record (s : schema) : bool :=
  match s with SRecord _ _ => true | _ => false end.

(** A union holds no union and at most one array, as Avro asks, and at
    most one record, as validation here goes by position where
    [fastavro] goes by name; the fields of a record have distinct
    names. *)
Fixpoint well_formed (s : schema) : bool :=
  match s with
  | SEnum _ symbols => fits (length symbols)
  | SArray items => well_formed items
  | SUnion branches =>
      fits (length branches)
      && negb (existsb is_union branches)
      && bool_decide (length (filter (fun b => is_array b = true) branches) ≤ 1)%nat
      && bool_decide (length (filter (fun b => is_record b = true) branches) ≤ 1)%nat
      && (fix all (bs : list schema) : bool :=
            match bs with
            | [] => true
            | b :: bs' => well_formed b && all bs'
            end) branches
  | SRecord _ fields =>
      bool_decide (NoDup (map fst fields))
      && (fix all (fs : list (string * schema)) : bool :=
            match fs with
            | [] => true
            | (_, t) :: fs' => well_formed t && all fs'
            end) fields
  | _ => true
  end.

(** Every length inside the datum is one Python can hold. *)
Fixpoint sized (d : datum) : bool :=
  match d with
  | DBytes bs => fits (length bs)
  | DStr t => fits (length (list_byte_of_string t))
  | DList ds =>
      fits (length ds)
      && (fix all (ds : list datum) : bool :=
            match ds with
            | [] => true
            | d :: ds' => sized d && all ds'
            end) ds
  | DDict es =>
      (fix all (es : list (string * datum)) : bool :=
         match es with
         | [] => true
         | (_, v) :: es' => sized v && all es'
         end) es
  | _ => true
  end.

(** [fastavro.schemaless_writer] and [fastavro.schemaless_reader] on the
    bytes written and the bytes left. *)
Definition schemaless_writer (s : schema) (record : datum) : option (list byte) :=
  write_data s record.

Definition schemaless_reader (s : schema) (bs : list byte) : option datum :=
  fst <$> read_data s bs.

(** *** The nested loops, as functions on lists *)

Fixpoint write_fields (entries : list (string * datum))
    (fs : list (string * schema)) : option (list byte) :=
  match fs with
  | [] => Some []
  | (name, t) :: fs' =>
      head ← match dict_get entries name with
             | Some v => write_data t v
             | None => if has_null t then write_data t DNone else None
             end;
      tail ← write_fields entries fs';
      Some (head ++ tail)%list
  end.

Fixpoint read_fields (fs : list (string * schema)) (bs : list byte)
  : option (list (string * datum) * list byte) :=
  match fs with
  | [] => Some ([], bs)
  | (name, t) :: fs' =>
      '(v, bs) ← read_data t bs;
      '(entries, bs) ← read_fields fs' bs;
      Some ((name, v) :: entries, bs)
  end.

Fixpoint validate_fields (fs : list (string * schema))
    (es : list (string * datum)) : bool :=
  match fs, es with
  | [], [] => true
  | (name, t) :: fs', (key, v) :: es' =>
      String.eqb name key && validate t v && validate_fields fs' es'
  | _, _ => false
  end.

(** The writer accepts the datum for the schema, and the reader gets the
    datum back and leaves what follows the written bytes. *)
Definition reads_back (s : schema) : Prop :=
  well_formed s = true →
  ∀ (d : datum) (rest : list byte),
    sized d = true → validate s d = true →
    ∃ enc,
      write_data s d = Some enc ∧ read_data s (enc ++ rest) = Some (d, rest).

(** The message carries the record, written with the schema. *)
Definition carries (s : schema) (msg : Message) (record : datum) : Prop :=
  sized record = true
  ∧ validate s record = true
  ∧ msg_value msg = schemaless_writer s record.

End Avro.

(** ** A model of [json.load] and [fastavro.parse_schema]

    Enough JSON for schema files: objects, arrays, strings with the
    simple escapes, integers and the three literals. *)
Module Json.

Inductive json :=
| JNull
| JBool (b : bool)
| JNum (z : Z)
| JStr (s : string)
| JArr (items : list json)
| JObj (members : list (string * json)).

Inductive token :=
| TLBrace | TRBrace | TLBrack | TRBrack | TColon | TComma
| TStr (s : string)
| TNum (z : Z)
| TTrue | TFalse | TNull.

Definition dquote : ascii := ascii_of_nat 34.
Definition backslash : ascii := ascii_of_nat 92.

Definition is_space (c : ascii) : bool :=
  let n := nat_of_ascii c in
  (n =? 32)%nat || (n =? 9)%nat || (n =? 10)%nat || (n =? 13)%nat.

Definition is_digit (c : ascii) : bool :=
  let n := nat_of_ascii c in (48 <=? n)%nat && (n <=? 57)%nat.

(** The rest of a string literal after its opening quote. *)
Fixpoint lex_string (s acc : string) : option (string * string) :=
  match s with
  | EmptyString => None
  | String c rest =>
      if Ascii.eqb c dquote then Some (String.rev acc, rest)
      else if Ascii.eqb c backslash then
        match rest with
        | EmptyString => None
        | String e rest' =>
            let plain :=
              if Ascii.eqb e "n" then Some (ascii_of_nat 10)
              else if Ascii.eqb e "t" then Some (ascii_of_nat 9)
              else if Ascii.eqb e "r" then Some (ascii_of_nat 13)
              else if Ascii.eqb e dquote || Ascii.eqb e backslash || Ascii.eqb e "/"
              then Some e else None in
            match plain with
            | Some p => lex_string rest' (String p acc)
            | None => None
            end
        end
      else lex_string rest (String c acc)
  end.

Fixpoint lex_digits (s : string) (acc : Z) : Z * string :=
  match s with
  | String c rest =>
      if is_digit c
      then lex_digits rest (10 * acc + Z.of_nat (nat_of_ascii c - 48))%Z
      else (acc, s)
  | EmptyString => (acc, s)
  end.

Definition drop_string (n : nat) (s : string) : string :=
  String.substring n (String.length s - n) s.

Fixpoint lex (fuel : nat) (s : string) : option (list token) :=
  match fuel with
  | O => None
  | S fuel' =>
      match s with
      | EmptyString => Some []
      | String c rest =>
          let one (t : token) := (t ::.) <$> lex fuel' rest in
          if is_space c then lex fuel' rest
          else if Ascii.eqb c "{" then one TLBrace
          else if Ascii.eqb c "}" then one TRBrace
          else if Ascii.eqb c "[" then one TLBrack
          else if Ascii.eqb c "]" then one TRBrack
          else if Ascii.eqb c ":" then one TColon
          else if Ascii.eqb c "," then one TComma
          else if Ascii.eqb c dquote then
            '(t, rest') ← lex_string rest "";
            (TStr t ::.) <$> lex fuel' rest'
          else if is_digit c then
            let '(z, rest') := lex_digits s 0 in
            (TNum z ::.) <$> lex fuel' rest'
          else if Ascii.eqb c "-" then
            match rest with
            | String d _ =>
                if is_digit d then
                  let '(z, rest') := lex_digits rest 0 in
                  (TNum (- z) ::.) <$> lex fuel' rest'
                else None
            | EmptyString => None
            end
          else if String.prefix "true" s then
            (TTrue ::.) <$> lex fuel' (drop_string 4 s)
          else if String.prefix "false" s then
            (TFalse ::.) <$> lex fuel' (drop_string 5 s)
          else if String.prefix "null" s then
            (TNull ::.) <$> lex fuel' (drop_string 4 s)
          else None
      end
  end.

Fixpoint parse_value (fuel : nat) (ts : list token) : option (json * list token) :=
  match fuel with
  | O => None
  | S fuel' =>
      match ts with
      | TNull :: r => Some (JNull, r)
      | TTrue :: r => Some (JBool true, r)
      | TFalse :: r => Some (JBool false, r)
      | TNum z :: r => Some (JNum z, r)
      | TStr s :: r => Some (JStr s, r)
      | TLBrack :: TRBrack :: r => Some (JArr [], r)
      | TLBrack :: r => '(items, r) ← parse_items fuel' r; Some (JArr items, r)
      | TLBrace :: TRBrace :: r => Some (JObj [], r)
      | TLBrace :: r => '(members, r) ← parse_members fuel' r; Some (JObj members, r)
      | _ => None
      end
  end
with parse_items (fuel : nat) (ts : list token) : option (list json * list token) :=
  match fuel with
  | O => None
  | S fuel' =>
      '(v, r) ← parse_value fuel' ts;
      match r with
      | TComma :: r => '(vs, r) ← parse_items fuel' r; Some (v :: vs, r)
      | TRBrack :: r => Some ([v], r)
      | _ => None
      end
  end
with parse_members (fuel : nat) (ts : list token)
  : option (list (string * json) * list token) :=
  match fuel with
  | O => None
  | S fuel' =>
      match ts with
      | TStr key :: TColon :: r =>
          '(v, r) ← parse_value fuel' r;
          match r with
          | TComma :: r => '(ms, r) ← parse_members fuel' r; Some ((key, v) :: ms, r)
          | TRBrace :: r => Some ([(key, v)], r)
          | _ => None
          end
      | _ => None
      end
  end.

(** [json.loads(text)] *)
Definition loads (text : string) : option json :=
  ts ← lex (S (String.length text)) text;
  '(v, r) ← parse_value (S (length ts)) ts;
  match r with
  | [] => Some v
  | _ => None
  end.

(** [obj[key]] of a loaded object: the last of repeated keys stands. *)
Fixpoint member (key : string) (members : list (string * json)) : option json :=
  match members with
  | [] => None
  | (k, v) :: members' =>
      match member key members' with
      | Some later => Some later
      | None => if String.eqb k key then Some v else None
      end
  end.

Fixpoint size (j : json) : nat :=
  match j with
  | JArr items => S (list_sum (map size items))
  | JObj members => S (list_sum (map (fun m => size (snd m)) members))
  | _ => 1
  end.

Definition as_string (j : option json) : option string :=
  match j with
  | Some (JStr s) => Some s
  | _ => None
  end.

Definition primitive (name : string) : option Avro.schema :=
  if String.eqb name "null" then Some Avro.SNull
  else if String.eqb name "boolean" then Some Avro.SBoolean
  else if String.eqb name "int" then Some Avro.SInt
  else if String.eqb name "long" then Some Avro.SLong
  else if String.eqb name "bytes" then Some Avro.SBytes
  else if String.eqb name "string" then Some Avro.SString
  else None.

(** The schema a loaded definition stands for; definitions with
    floating point types, maps or references to named types are outside
    the model and refused. *)
Fixpoint to_schema (fuel : nat) (j : json) : option Avro.schema :=
  match fuel with
  | O => None
  | S fuel' =>
      match j with
      | JStr name => primitive name
      | JArr branches => Avro.SUnion <$> mapM (to_schema fuel') branches
      | JObj members =>
          match member "type" members with
          | Some (JStr "record") =>
              name ← as_string (member "name" members);
              match member "fields" members with
              | Some (JArr fields) =>
                  Avro.SRecord name <$>
                    mapM (fun f =>
                            match f with
                            | JObj fm =>
                                fname ← as_string (member "name" fm);
                                ftype ← member "type" fm;
                                t ← to_schema fuel' ftype;
                                Some (fname, t)
                            | _ => None
                            end) fields
              | _ => None
              end
          | Some (JStr "enum") =>
              name ← as_string (member "name" members);
              match member "symbols" members with
              | Some (JArr symbols) =>
                  Avro.SEnum name <$> mapM (fun s => as_string (Some s)) symbols
              | _ => None
              end
          | Some (JStr "fixed") =>
              name ← as_string (member "name" members);
              match member "size" members with
              | Some (JNum n) =>
                  if (0 <=? n)%Z then Some (Avro.SFixed name (Z.to_nat n)) else None
              | _ => None
              end
          | Some (JStr "array") =>
              items ← member "items" members;
              Avro.SArray <$> to_schema fuel' items
          | Some other => to_schema fuel' other
          | None => None
          end
      | _ => None
      end
  end.

(** [fastavro.parse_schema(schema)] *)
Definition parse_schema (j : json) : option Avro.schema :=
  to_schema (size j) j.

(** A text with every apostrophe read as a double quote, to write JSON
    texts legibly. *)
Fixpoint quoted (s : string) : string :=
  match s with
  | EmptyString => EmptyString
  | String c rest =>
      String (if Ascii.eqb c "'" then dquote else c) (quoted rest)
  end.

End Json.

(** ** Instances to run the model on *)

(** The codec of the two modules above. *)
Definition avro_codec : SchemaCodec := {|
  Json := Json.json;
  Schema := Avro.schema;
  Datum := Avro.datum;
  py_none := Avro.DNone;
  json_loads := Json.loads;
  parse_schema := Json.parse_schema;
  read_datum := Avro.schemaless_reader
|}.

(** A client whose broker holds a queue of messages for the one consumer:
    [poll] hands out the first, [consume] the first [num_messages], and
    a consumer without [group.id] or a negative [num_messages] raises. *)
Definition queue_broker : BrokerClient := {|
  Kafka := list Message;
  Consumer := unit;
  Time := Z;
  kafka_Consumer := fun config k =>
    match config !! "group.id" with
    | Some _ => (inr (), k)
    | None => (inl "group.id must be set", k)
    end;
  kafka_subscribe := fun _ _ k => (inr (), k);
  kafka_poll := fun _ _ k =>
    match k with
    | [] => (inr None, [])
    | m :: k' => (inr (Some m), k')
    end;
  kafka_consume := fun _ n _ k =>
    if (n <? 0)%Z then (inl "num_messages must be between 0 and 1000000 (1M)", k)
    else (inr (take (Z.to_nat n) k), drop (Z.to_nat n) k);
  kafka_close := fun _ k => (inr (), k)
|}.

(** ** What the configuration holds *)

Definition sasl_keys : list string :=
  ["security.protocol"; "sasl.mechanism"; "sasl.username"; "sasl.password"].

Definition base_keys : list string :=
  ["group.id"; "auto.offset.reset"; "bootstrap.servers"].

(** The four SASL entries for the given credentials. *)
Definition has_sasl (kc : gmap string string) (username password : string) : Prop :=
  kc !! "security.protocol" = Some "sasl_plaintext"
  ∧ kc !! "sasl.mechanism" = Some "SCRAM-SHA-512"
  ∧ kc !! "sasl.username" = Some username
  ∧ kc !! "sasl.password" = Some password.

Definition no_sasl (kc : gmap string string) : Prop :=
  Forall (fun k => kc !! k = None) sasl_keys.

Definition default_servers : string :=
  "localhost:9093,localhost:9094,localhost:9095".

(** ** Inputs to run the model on *)

Section ExampleInputs.

Import Avro.

#[local] Existing Instance avro_codec.
#[local] Existing Instance queue_broker.

Definition example_config : gmap string string :=
  <["group_id" := "g1"]> (<["username" := "alice"]> (<["password" := "secret"]>
    (<["auto.offset.reset" := "latest"]> (<["session.timeout.ms" := "6000"]> ∅)))).

Definition example_kafka_config : gmap string string :=
  <["group.id" := "g1"]> (<["auto.offset.reset" := "earliest"]>
    (<["bootstrap.servers" := default_servers]>
      (<["security.protocol" := "sasl_plaintext"]>
        (<["sasl.mechanism" := "SCRAM-SHA-512"]>
          (<["sasl.username" := "alice"]> (<["sasl.password" := "secret"]> ∅)))))).

Definition alert_schema_text : string :=
  Json.quoted
    "{'type': 'record', 'name': 'alert', 'fields': [
        {'name': 'objectId', 'type': 'string'},
        {'name': 'candidate', 'type':
           {'type': 'record', 'name': 'candidate', 'fields': [
              {'name': 'jd', 'type': 'long'},
              {'name': 'fid', 'type': 'int'}]}},
        {'name': 'cutout', 'type': ['null', 'bytes']}]}".

Definition alert_schema : schema :=
  SRecord "alert"
    [("objectId", SString);
     ("candidate", SRecord "candidate" [("jd", SLong); ("fid", SInt)]);
     ("cutout", SUnion [SNull; SBytes])].

(** A record with a record inside. *)
Definition nested_record : datum :=
  DDict [("objectId", DStr "ZTF18abcdefg");
         ("candidate", DDict [("jd", DInt 2458000); ("fid", DInt (-1))]);
         ("cutout", DBytes [x01; x02; xff])].

Definition empty_schema : schema := SRecord "empty" [].

Definition empty_record : datum := DDict [].

Definition optional_schema : schema :=
  SRecord "optional"
    [("magpsf", SUnion [SNull; SLong]);
     ("name", SUnion [SNull; SString]);
     ("tags", SUnion [SNull; SArray SString])].

(** A record whose optional fields are all null. *)
Definition null_record : datum :=
  DDict [("magpsf", DNone); ("name", DNone); ("tags", DNone)].

Definition good_message : Message := {|
  msg_id := 139888244333888;
  msg_error := None;
  msg_topic := Some "alerts";
  msg_partition := Some 0%Z;
  msg_offset := Some 42%Z;
  msg_key := Some [x6b; x31];
  msg_value := schemaless_writer alert_schema nested_record
|}.

(** The same message, delivered with an error. *)
Definition failed_message : Message := {|
  msg_id := 139888244333888;
  msg_error := Some {| kerr_code := -191; kerr_str := "Broker: No more messages" |};
  msg_topic := Some "alerts";
  msg_partition := Some 0%Z;
  msg_offset := Some 42%Z;
  msg_key := Some [x6b; x31];
  msg_value := schemaless_writer alert_schema nested_record
|}.

Definition default_file : string := "/opt/fink/schemas/fink_alert_schema.avsc".
Definition cache_file : string := "/opt/fink/schemas/distribution_schema.avsc".
Definition own_file : string := "/home/user/alert.avsc".

(** A world where the schema URL cannot be reached and the broker holds
    two messages, the first with an error. *)
Definition offline_world : World := {|
  module_file := "/opt/fink/fink_client/consumer.py";
  cwd := "/home/user";
  remote := HttpFailure ReqConnectionError;
  files := <[default_file := alert_schema_text]>
             (<[own_file := alert_schema_text]> ∅);
  unwritable := ∅;
  stdout := [];
  kafka := [failed_message; good_message];
  trace := []
|}.

Definition with_remote (r : http_outcome) (w : World) : World :=
  {| module_file := module_file w; cwd := cwd w; remote := r;
     files := files w; unwritable := unwritable w; stdout := stdout w;
     kafka := kafka w; trace := trace w |}.

(** The same world with a server that answers 404. *)
Definition not_found_world : World :=
  with_remote (HttpResponse 404 "404: Not Found") offline_world.

Definition example_topics : list string := ["alerts"].

Definition anonymous_config : gmap string string := <["group_id" := "g1"]> ∅.

Definition example_consumer : AlertConsumer := {|
  _topics := example_topics;
  _kafka_config :=
    <["bootstrap.servers" := default_servers]>
      (<["auto.offset.reset" := "earliest"]> (<["group.id" := "g1"]> ∅));
  _parsed_schema := alert_schema;
  _consumer := ()
|}.

Definition no_group_config : gmap string string :=
  <["username" := "alice"]> (<["password" := "secret"]> ∅).

(** A world whose broker has nothing for the consumer. *)
Definition idle_world : World := set_kafka [] offline_world.

(** The world after construction without a path, offline. *)
Definition constructed_world : World :=
  snd (__init__ example_topics anonymous_config None offline_world).

(** Later the server is back, with another schema. *)
Definition online_world : World :=
  with_remote (HttpResponse 200 (Json.quoted "'string'")) constructed_world.

(** A world whose server answers with the schema. *)
Definition served_world : World :=
  with_remote (HttpResponse 200 alert_schema_text) offline_world.

(** The same, installed where the cache file cannot be written. *)
Definition readonly_world : World := {|
  module_file := module_file served_world;
  cwd := cwd served_world;
  remote := remote served_world;
  files := files served_world;
  unwritable := {[cache_file]};
  stdout := stdout served_world;
  kafka := kafka served_world;
  trace := trace served_world
|}.

(** A message whose payload stops after the length of the first field. *)
Definition truncated_message : Message := {|
  msg_id := 139888244334016;
  msg_error := None;
  msg_topic := Some "alerts";
  msg_partition := Some 0%Z;
  msg_offset := Some 43%Z;
  msg_key := None;
  msg_value := Some [x18]
|}.

(** A world whose broker holds a good message, a truncated one and a
    good one. *)
Definition bad_batch_world : World :=
  set_kafka [good_message; truncated_message; good_message] offline_world.

(** A world whose broker holds one good message. *)
Definition good_world : World := set_kafka [good_message] offline_world.

(** The options of [anonymous_config] with a setting the builder does
    not read. *)
Definition verbose_config : gmap string string :=
  <["debug" := "all"]> anonymous_config.

(** A body that polls once. *)
Definition poll_once (c : AlertConsumer) : M (option string * datum) :=
  poll c 1%Z.


End ExampleInputs.

(** * Properties *)

(** ** Configuration builder *)

Lemma py_in_true {V} (k : string) (d : gmap string V) :
  py_in k d = true ↔ is_Some (d !! k).
Proof. unfold py_in. apply bool_decide_eq_true. Qed.

Lemma py_in_lookup {V} (k : string) (d : gmap string V) :
  py_in k d = match d !! k with Some _ => true | None => false end.
Proof.
  unfold py_in. destruct (d !! k) eqn:E.
  - apply bool_decide_eq_true. eauto.
  - apply bool_decide_eq_false. intros [v Hv]. discriminate.
Qed.

Lemma default_servers_joined :
  py_format "{}" [PyStr (py_join "," fink_servers)] = default_servers.
Proof. reflexivity. Qed.

(** What the builder returns, case by case on the four options read. *)
Lemma get_kafka_config_unfold (config : gmap string string) :
  _get_kafka_config config =
    match config !! "group_id" with
    | None => Raise (KeyError "group_id")
    | Some g =>
        let creds : gmap string string :=
          match config !! "username", config !! "password" with
          | Some u, Some p =>
              <["sasl.password" := p]>
                (<["sasl.username" := u]>
                   (<["sasl.mechanism" := "SCRAM-SHA-512"]>
                      (<["security.protocol" := "sasl_plaintext"]> ∅)))
          | _, _ => ∅
          end in
        Ok (<["bootstrap.servers" :=
                default default_servers (config !! "bootstrap.servers")]>
              ({["auto.offset.reset" := "earliest"]} ∪ <["group.id" := g]> creds))
    end.
Proof.
  unfold _get_kafka_config, py_update, py_getitem.
  rewrite !py_in_lookup, default_servers_joined.
  destruct (config !! "username") as [u|], (config !! "password") as [p|],
    (config !! "group_id") as [g|], (config !! "bootstrap.servers") as [b|];
    reflexivity.
Qed.

(** C3. With [group_id] present the builder returns a configuration that
    holds [group.id] with the given value and [auto.offset.reset] with
    [earliest]; it holds the four SASL entries, with the fixed protocol
    and mechanism and the given credentials, when both [username] and
    [password] are present, and none of the four otherwise; and
    [bootstrap.servers] is the given value, or the three local addresses
    joined by commas when none is given. *)
Theorem get_kafka_config_entries (config : gmap string string) (g : string) :
  config !! "group_id" = Some g →
  ∃ kc,
    _get_kafka_config config = Ok kc
    ∧ kc !! "group.id" = Some g
    ∧ kc !! "auto.offset.reset" = Some "earliest"
    ∧ match config !! "username", config !! "password" with
      | Some u, Some p => has_sasl kc u p
      | _, _ => no_sasl kc
      end
    ∧ kc !! "bootstrap.servers" =
        Some (default "localhost:9093,localhost:9094,localhost:9095"
                (config !! "bootstrap.servers")).
Proof.
  intros Hg. rewrite get_kafka_config_unfold, Hg. cbv zeta.
  eexists. split; [reflexivity|].
  unfold has_sasl, no_sasl, sasl_keys.
  destruct (config !! "username") as [u|], (config !! "password") as [p|];
    repeat split; repeat constructor;
    repeat (rewrite lookup_insert_ne by done);
    rewrite ?lookup_insert_eq; try reflexivity;
    simplify_map_eq; try reflexivity.
Qed.

Lemma get_kafka_config_entries_witness :
  example_config !! "group_id" = Some "g1"
  ∧ ∃ kc,
      _get_kafka_config example_config = Ok kc
      ∧ kc !! "group.id" = Some "g1"
      ∧ kc !! "auto.offset.reset" = Some "earliest"
      ∧ has_sasl kc "alice" "secret"
      ∧ kc !! "bootstrap.servers" =
          Some "localhost:9093,localhost:9094,localhost:9095".
Proof.
  split; [reflexivity|].
  exact (get_kafka_config_entries example_config "g1" eq_refl).
Defined.

(** C10. A configuration the builder returns has exactly the keys
    [group.id], [auto.offset.reset] and [bootstrap.servers], and with
    them the four SASL keys when both [username] and [password] are
    present in the input; so no other key of the input, [auto.offset.reset]
    and other broker settings included, is looked up with success in the
    output, and [auto.offset.reset] stays [earliest]. *)
Theorem get_kafka_config_keys (config kc : gmap string string) :
  _get_kafka_config config = Ok kc →
  dom kc =
    list_to_set base_keys
    ∪ (if py_in "username" config && py_in "password" config
       then list_to_set sasl_keys else ∅)
  ∧ (∀ k, k ∉ (base_keys ++ sasl_keys)%list → kc !! k = None)
  ∧ kc !! "auto.offset.reset" = Some "earliest".
Proof.
  rewrite get_kafka_config_unfold, !py_in_lookup.
  destruct (config !! "group_id") as [g|]; [|discriminate].
  cbv zeta. intros [= <-].
  assert (Hdom : dom (<["bootstrap.servers" :=
                default default_servers (config !! "bootstrap.servers")]>
              ({["auto.offset.reset" := "earliest"]} ∪ <["group.id" := g]>
                 match config !! "username", config !! "password" with
                 | Some u, Some p =>
                     <["sasl.password" := p]>
                       (<["sasl.username" := u]>
                          (<["sasl.mechanism" := "SCRAM-SHA-512"]>
                             (<["security.protocol" := "sasl_plaintext"]> (∅ : gmap string string))))
                 | _, _ => ∅
                 end)) =
            list_to_set base_keys
            ∪ (match config !! "username", config !! "password" with
               | Some _, Some _ => list_to_set sasl_keys
               | _, _ => ∅
               end : gset string)).
  { destruct (config !! "username") as [u|], (config !! "password") as [p|];
      rewrite ?dom_insert_L, ?dom_union_L, ?dom_insert_L, ?dom_singleton_L, ?dom_empty_L;
      unfold base_keys, sasl_keys; simpl; set_solver. }
  split; [|split].
  - rewrite Hdom.
    destruct (config !! "username"), (config !! "password"); reflexivity.
  - intros k Hk. apply not_elem_of_dom. rewrite Hdom. intros Hin.
    apply Hk. apply elem_of_app.
    apply elem_of_union in Hin as [Hin|Hin].
    + left. by apply elem_of_list_to_set in Hin.
    + right. destruct (config !! "username"), (config !! "password");
        try (by apply elem_of_list_to_set in Hin); set_solver.
  - rewrite lookup_insert_ne by done.
    apply lookup_union_Some_l. apply lookup_singleton_eq.
Qed.

Lemma get_kafka_config_keys_witness :
  _get_kafka_config example_config = Ok example_kafka_config
  ∧ dom example_kafka_config = list_to_set (base_keys ++ sasl_keys)%list
  ∧ example_kafka_config !! "session.timeout.ms" = None
  ∧ example_kafka_config !! "auto.offset.reset" = Some "earliest".
Proof.
  assert (Hrun : _get_kafka_config example_config = Ok example_kafka_config)
    by (vm_compute; reflexivity).
  split; [exact Hrun|].
  destruct (get_kafka_config_keys example_config example_kafka_config Hrun)
    as (Hdom & Hother & Hreset).
  split; [|split].
  - rewrite Hdom. reflexivity.
  - apply Hother. vm_compute. intros H.
    repeat (apply elem_of_cons in H as [H|H]; [discriminate|]).
    by apply elem_of_nil in H.
  - exact Hreset.
Defined.

(** ** The consumer, over any codec and any client *)

Section ConsumerFacts.

Context `{Codec : SchemaCodec} `{Broker : BrokerClient}.

Implicit Types (w : World) (self : AlertConsumer) (msg : Message).

Lemma append_empty_r (s : string) : s ++ "" = s.
Proof.
  induction s as [|c s IH]; [reflexivity|].
  change (String c (s ++ "") = String c s). by rewrite IH.
Qed.

Lemma bind_unfold {A B} (m : M A) (f : A → M B) w :
  (m ≫= f) w =
    match m w with
    | (Ok a, w') => f a w'
    | (Raise e, w') => (Raise e, w')
    end.
Proof. reflexivity. Qed.

Lemma decode_avro_alert_unfold (fo : BytesIO) (schema : Schema) w :
  _decode_avro_alert fo schema w =
    (match read_datum schema (bio_buf fo) with
     | Some d => Ok d
     | None => Raise DecodeError
     end, emit (EvDecode schema (bio_buf fo)) w).
Proof.
  unfold _decode_avro_alert, schemaless_reader, bio_rest, seek. simpl.
  rewrite drop_0. destruct (read_datum schema (bio_buf fo)); reflexivity.
Qed.

(** C5. Without [group_id] the builder raises [KeyError] for that key
    rather than filling in a value, and construction fails with the same
    error in the world it started in: nothing was fetched, read, printed
    or asked of the client before. *)
Theorem init_without_group_id (topics : list string) (config : gmap string string)
    (schema : option string) w :
  config !! "group_id" = None →
  _get_kafka_config config = Raise (KeyError "group_id")
  ∧ __init__ topics config schema w = (Raise (KeyError "group_id"), w).
Proof.
  intros Hg.
  assert (Hcfg : _get_kafka_config config = Raise (KeyError "group_id"))
    by (rewrite get_kafka_config_unfold, Hg; reflexivity).
  split; [exact Hcfg|].
  unfold __init__. rewrite bind_unfold. unfold lift. rewrite Hcfg. reflexivity.
Qed.

(** C6. When the client's [poll] answers [None] for the timeout given,
    [poll] returns the pair of [None] and [None]; it raises nothing and
    decodes nothing, the call to the client being all it did. *)
Theorem poll_no_message self (timeout : Time) w (k' : Kafka) :
  kafka_poll (_consumer self) timeout (kafka w) = (inr None, k') →
  poll self timeout w =
    (Ok (None, py_none), set_kafka k' (emit (EvPoll timeout) w)).
Proof.
  intros Hpoll. unfold poll. rewrite bind_unfold.
  unfold kafka_call. rewrite Hpoll. reflexivity.
Qed.

(** [poll] on a message that carries an error: [AlertError] with the
    text built from the message, after the one call to the client and
    before any decoding. *)
Lemma poll_error_raises self (timeout : Time) w (k' : Kafka) msg (e : KafkaError) :
  kafka_poll (_consumer self) timeout (kafka w) = (inr (Some msg), k') →
  msg_error msg = Some e →
  poll self timeout w =
    (Raise (AlertError (poll_error_message msg)),
     set_kafka k' (emit (EvPoll timeout) w)).
Proof.
  intros Hpoll He. unfold poll. rewrite bind_unfold.
  unfold kafka_call. rewrite Hpoll, He. reflexivity.
Qed.

(** [poll] on a message without error decodes its payload with the
    schema of the instance. *)
Lemma poll_decodes self (timeout : Time) w (k' : Kafka) msg :
  kafka_poll (_consumer self) timeout (kafka w) = (inr (Some msg), k') →
  msg_error msg = None →
  poll self timeout w =
    (match read_datum (_parsed_schema self) (payload msg) with
     | Some d => Ok (msg_topic msg, d)
     | None => Raise DecodeError
     end,
     emit (EvDecode (_parsed_schema self) (payload msg))
       (set_kafka k' (emit (EvPoll timeout) w))).
Proof.
  intros Hpoll He. unfold poll. rewrite bind_unfold.
  unfold kafka_call. rewrite Hpoll, He. simpl.
  rewrite bind_unfold, decode_avro_alert_unfold. simpl. fold (payload msg).
  destruct (read_datum (_parsed_schema self) (payload msg)); reflexivity.
Qed.

(** C2, at the failing input.  [poll] on a message with an error raises
    [AlertError] before it decodes, and the text names the topic, the
    partition and the offset; but where the key should stand it has the
    text of the bound method [msg.key], so the text is the same whatever
    the key of the message is. *)
Theorem poll_error_text_has_no_key self (timeout : Time) w (k' : Kafka) msg
    (e : KafkaError) (key : option (list byte)) :
  kafka_poll (_consumer self) timeout (kafka w) = (inr (Some msg), k') →
  msg_error msg = Some e →
  poll self timeout w =
    (Raise (AlertError (poll_error_message msg)),
     set_kafka k' (emit (EvPoll timeout) w))
  ∧ poll_error_message msg =
      "Error: " ++ py_str (PyBuiltinMethod "error" "cimpl.Message" (msg_id msg)) ++ nl
      ++ "topic: " ++ py_str (py_opt_str (msg_topic msg))
      ++ "[" ++ py_str (py_opt_int (msg_partition msg))
      ++ "] at offset: " ++ py_str (py_opt_int (msg_offset msg))
      ++ " with key: " ++ py_str (PyBuiltinMethod "key" "cimpl.Message" (msg_id msg))
  ∧ poll_error_message (with_key key msg) = poll_error_message msg.
Proof.
  intros Hpoll He. split; [|split].
  - eapply poll_error_raises; eassumption.
  - unfold poll_error_message, nl.
    cbv [py_format String.append]. fold String.append.
    change (py_str (PyStr ?s)) with s.
    rewrite append_empty_r. reflexivity.
  - reflexivity.
Qed.

(** *** The loop of [consume] *)

Lemma consume_unfold self (n : Z) (timeout : Time) w :
  consume self n timeout w =
    (msg_list ← kafka_call (EvConsume n timeout)
                           (kafka_consume (_consumer self) n timeout);
     for_in msg_list [] (consume_body self)) w.
Proof. reflexivity. Qed.

Lemma consume_body_unfold self alerts msg w :
  consume_body self alerts msg w =
    (match read_datum (_parsed_schema self) (payload msg) with
     | Some d => Ok (alerts ++ [(msg_topic msg, d)])%list
     | None => Raise DecodeError
     end, emit (EvDecode (_parsed_schema self) (payload msg)) w).
Proof.
  unfold consume_body. rewrite bind_unfold, decode_avro_alert_unfold. simpl.
  fold (payload msg).
  destruct (read_datum (_parsed_schema self) (payload msg)); reflexivity.
Qed.

Lemma emit_all_trace evs w : trace (emit_all evs w) = (trace w ++ evs)%list.
Proof.
  revert w. induction evs as [|ev evs IH]; intros w; simpl.
  - by rewrite app_nil_r.
  - rewrite IH. simpl. by rewrite <- app_assoc.
Qed.

(** When every payload decodes, the loop appends one pair for each
    message, in the order of the messages. *)
Lemma consume_loop_ok self (msgs : list Message) alerts w :
  Forall (fun msg => is_Some (read_datum (_parsed_schema self) (payload msg))) msgs →
  ∃ pairs,
    Forall2 (pair_of (_parsed_schema self)) msgs pairs
    ∧ for_in msgs alerts (consume_body self) w =
        (Ok (alerts ++ pairs)%list,
         emit_all (decode_events (_parsed_schema self) msgs) w).
Proof.
  intros Hall. revert alerts w.
  induction Hall as [|msg msgs [d Hd] _ IH]; intros alerts w.
  - exists []. split; [constructor|]. simpl. by rewrite app_nil_r.
  - simpl. rewrite bind_unfold, consume_body_unfold, Hd.
    destruct (IH (alerts ++ [(msg_topic msg, d)])%list
                (emit (EvDecode (_parsed_schema self) (payload msg)) w))
      as (pairs & Hpairs & Hrun).
    exists ((msg_topic msg, d) :: pairs). split.
    + constructor; [by split|exact Hpairs].
    + rewrite Hrun. by rewrite <- app_assoc.
Qed.

(** When a payload does not decode, the loop raises the decoder's
    error, having decoded the messages up to that one. *)
Lemma consume_loop_fail self (msgs : list Message) alerts w :
  Exists (fun msg => read_datum (_parsed_schema self) (payload msg) = None) msgs →
  ∃ before,
    before `prefix_of` msgs
    ∧ for_in msgs alerts (consume_body self) w =
        (Raise DecodeError,
         emit_all (decode_events (_parsed_schema self) before) w).
Proof.
  revert alerts w. induction msgs as [|msg msgs IH]; intros alerts w Hex.
  - inversion Hex.
  - simpl. rewrite bind_unfold, consume_body_unfold.
    destruct (read_datum (_parsed_schema self) (payload msg)) as [d|] eqn:Hd.
    + inversion Hex as [? ? Hhere|? ? Hlater]; subst; [congruence|].
      destruct (IH (alerts ++ [(msg_topic msg, d)])%list
                  (emit (EvDecode (_parsed_schema self) (payload msg)) w) Hlater)
        as (before & Hpre & Hrun).
      exists (msg :: before). split; [by apply prefix_cons|].
      rewrite Hrun. reflexivity.
    + exists [msg]. split; [apply prefix_cons, prefix_nil|]. reflexivity.
Qed.

(** C7. Let the client deliver [msgs] to [consume], at most [n] of them.
    Then either every payload decodes, and [consume] returns one pair of
    topic and record for each message, in the order delivered, so at
    most [n] pairs; or some payload does not decode, and [consume] raises
    the decoder's error.  The error a message carries is never read: it
    appears in neither case, and [AlertError] is never raised, where
    [poll] raises it for the same message. *)
Theorem consume_one_pair_per_message self (n : Z) (timeout : Time) w
    (msgs : list Message) (k' : Kafka) :
  kafka_consume (_consumer self) n timeout (kafka w) = (inr msgs, k') →
  (Z.of_nat (length msgs) ≤ n)%Z →
  (Forall (fun msg => is_Some (read_datum (_parsed_schema self) (payload msg))) msgs
   ∧ ∃ pairs w',
       consume self n timeout w = (Ok pairs, w')
       ∧ (Z.of_nat (length pairs) ≤ n)%Z
       ∧ Forall2 (pair_of (_parsed_schema self)) msgs pairs)
  ∨ (Exists (fun msg => read_datum (_parsed_schema self) (payload msg) = None) msgs
     ∧ ∃ w', consume self n timeout w = (Raise DecodeError, w')).
Proof.
  intros Hcall Hlen.
  rewrite consume_unfold, bind_unfold. unfold kafka_call. rewrite Hcall.
  destruct (decide (Forall (fun msg =>
              is_Some (read_datum (_parsed_schema self) (payload msg))) msgs))
    as [Hall|Hnot].
  - left. split; [exact Hall|].
    destruct (consume_loop_ok self msgs []
                (set_kafka k' (emit (EvConsume n timeout) w)) Hall)
      as (pairs & Hpairs & Hrun).
    exists pairs. eexists. split; [exact Hrun|]. split; [|exact Hpairs].
    by rewrite <- (Forall2_length _ _ _ Hpairs).
  - right. apply not_Forall_Exists in Hnot; [|intros msg; apply _].
    assert (Hex : Exists (fun msg =>
              read_datum (_parsed_schema self) (payload msg) = None) msgs).
    { eapply Exists_impl; [exact Hnot|]. intros msg Hm. simpl in Hm.
      destruct (read_datum (_parsed_schema self) (payload msg)); [|reflexivity].
      exfalso. apply Hm. eauto. }
    split; [exact Hex|].
    destruct (consume_loop_fail self msgs []
                (set_kafka k' (emit (EvConsume n timeout) w)) Hex)
      as (before & _ & Hrun).
    eexists. exact Hrun.
Qed.

(** *** Schema resolution *)

Lemma load_schema_unfold (path : string) w :
  load_schema path w =
    match files w !! path with
    | None => (Raise (OSError path), emit (EvOpenRead path) w)
    | Some content =>
        (parsed content,
         match json_loads content with
         | None => emit (EvOpenRead path) w
         | Some _ => emit EvParseSchema (emit (EvOpenRead path) w)
         end)
    end.
Proof.
  unfold load_schema, parsed. rewrite bind_unfold. unfold read_file.
  destruct (files w !! path) as [content|]; [|reflexivity].
  rewrite bind_unfold. unfold json_load.
  destruct (json_loads content) as [j|]; [|reflexivity].
  unfold mret, M_ret, fastavro_parse_schema.
  destruct (parse_schema j); reflexivity.
Qed.

Lemma filename_of_url :
  py_format "../schemas/{}" [PyStr (List.last (py_split "/" schema_url) "")]
  = "../schemas/distribution_schema.avsc".
Proof. reflexivity. Qed.

Lemma fallback_notice_format w :
  py_format ("Could not obtain schema from fink servers" ++ nl
             ++ "Using default schema available at: {}")
            [PyStr (default_schema_path w)]
  = fallback_notice w.
Proof.
  unfold fallback_notice, nl.
  cbv [py_format String.append]. fold String.append.
  change (py_str (PyStr ?s)) with s.
  by rewrite append_empty_r.
Qed.

Lemma get_alert_schema_given (path : string) w :
  _get_alert_schema (Some path) w = load_schema path w.
Proof. reflexivity. Qed.

(** The fetch failed: the notice is printed and the default file is what
    gets read. *)
Lemma get_alert_schema_fallback w (why : request_failure) :
  remote w = HttpFailure why →
  _get_alert_schema None w =
    load_schema (default_schema_path w)
      (set_stdout (stdout w ++ [getting_notice; fallback_notice w])
         (emit (EvPrint (fallback_notice w))
            (emit (EvHttpGet schema_url 1)
               (emit (EvPrint getting_notice) w)))).
Proof.
  intros Hremote. unfold _get_alert_schema.
  rewrite bind_unfold. unfold try_except at 1.
  rewrite bind_unfold. unfold print at 1. cbv beta.
  rewrite bind_unfold. unfold requests_get at 1. simpl remote. rewrite Hremote.
  cbv beta iota.
  rewrite bind_unfold. unfold beside_module at 1. cbv beta iota.
  simpl cwd. simpl module_file. fold (default_schema_path w).
  rewrite fallback_notice_format.
  rewrite bind_unfold. unfold print at 1. cbv beta iota.
  unfold mret, M_ret. simpl.
  rewrite <- app_assoc. reflexivity.
Qed.

(** The server answered, with whatever status code: the body is written
    to the cache file, and the cache file is what gets read. *)
Lemma get_alert_schema_fetched w (code : Z) (body : string) :
  remote w = HttpResponse code body →
  schema_cache_path w ∉ unwritable w →
  _get_alert_schema None w =
    load_schema (schema_cache_path w)
      (set_files (<[schema_cache_path w := body]> (files w))
         (emit (EvOpenWrite (schema_cache_path w))
            (emit (EvHttpGet schema_url 1)
               (set_stdout (stdout w ++ [getting_notice])
                  (emit (EvPrint getting_notice) w))))).
Proof.
  intros Hremote Hwritable. unfold _get_alert_schema.
  rewrite bind_unfold. unfold try_except at 1.
  rewrite bind_unfold. unfold print at 1. cbv beta.
  rewrite bind_unfold. unfold requests_get at 1. simpl remote. rewrite Hremote.
  cbv beta iota.
  rewrite bind_unfold. unfold beside_module at 1. cbv beta iota.
  rewrite filename_of_url.
  rewrite bind_unfold. unfold write_file at 1. simpl unwritable. simpl cwd. simpl module_file.
  fold (schema_cache_path w).
  rewrite (bool_decide_eq_false_2 _ Hwritable).
  reflexivity.
Qed.

(** The server answered but the cache file cannot be written: the error
    of [open] goes to the caller, without fallback. *)
Lemma get_alert_schema_unwritable w (code : Z) (body : string) :
  remote w = HttpResponse code body →
  schema_cache_path w ∈ unwritable w →
  _get_alert_schema None w =
    (Raise (OSError (schema_cache_path w)),
     emit (EvOpenWrite (schema_cache_path w))
       (emit (EvHttpGet schema_url 1)
          (set_stdout (stdout w ++ [getting_notice])
             (emit (EvPrint getting_notice) w)))).
Proof.
  intros Hremote Hunwritable. unfold _get_alert_schema.
  rewrite bind_unfold. unfold try_except at 1.
  rewrite bind_unfold. unfold print at 1. cbv beta.
  rewrite bind_unfold. unfold requests_get at 1. simpl remote. rewrite Hremote.
  cbv beta iota.
  rewrite bind_unfold. unfold beside_module at 1. cbv beta iota.
  rewrite filename_of_url.
  rewrite bind_unfold. unfold write_file at 1.
  simpl unwritable. simpl cwd. simpl module_file.
  fold (schema_cache_path w).
  rewrite (bool_decide_eq_true_2 _ Hunwritable).
  reflexivity.
Qed.

(** C4. With an explicit path the resolver reads that file and nothing
    else: the result is what the content of the file parses to, an
    unreadable file, a text that is not JSON and a definition that is
    not a schema each raising to the caller; no request is sent, no file
    is written and nothing is printed. *)
Theorem get_alert_schema_explicit_path (path : string) w :
  ∃ evs,
    fst (_get_alert_schema (Some path) w) =
      match files w !! path with
      | None => Raise (OSError path)
      | Some content =>
          match json_loads content with
          | None => Raise JSONDecodeError
          | Some j =>
              match parse_schema j with
              | Some s => Ok s
              | None => Raise SchemaParseException
              end
          end
      end
    ∧ trace (snd (_get_alert_schema (Some path) w)) = (trace w ++ evs)%list
    ∧ Forall (fun ev => ev = EvOpenRead path ∨ ev = EvParseSchema) evs
    ∧ files (snd (_get_alert_schema (Some path) w)) = files w
    ∧ stdout (snd (_get_alert_schema (Some path) w)) = stdout w.
Proof.
  rewrite get_alert_schema_given, load_schema_unfold. unfold parsed.
  destruct (files w !! path) as [content|].
  - destruct (json_loads content) as [j|].
    + exists [EvOpenRead path; EvParseSchema]. simpl.
      rewrite <- app_assoc. repeat split; auto.
    + exists [EvOpenRead path]. simpl. repeat split; auto.
  - exists [EvOpenRead path]. simpl. repeat split; auto.
Qed.

(** C1, at the failing input.  The server answers the request with a
    status code outside 200 to 299.  The resolver does not fall back: it
    writes the body of that answer to the cache file, prints no notice
    about a default schema, reads the cache file back and returns what
    the body parses to. *)
Theorem get_alert_schema_non_2xx_no_fallback w (code : Z) (body : string) :
  remote w = HttpResponse code body →
  ¬ (200 ≤ code < 300)%Z →
  schema_cache_path w ∉ unwritable w →
  ∃ evs,
    fst (_get_alert_schema None w) = parsed body
    ∧ files (snd (_get_alert_schema None w))
        = <[schema_cache_path w := body]> (files w)
    ∧ stdout (snd (_get_alert_schema None w)) = (stdout w ++ [getting_notice])%list
    ∧ trace (snd (_get_alert_schema None w))
        = (trace w ++ [EvPrint getting_notice; EvHttpGet schema_url 1;
                       EvOpenWrite (schema_cache_path w);
                       EvOpenRead (schema_cache_path w)] ++ evs)%list
    ∧ (evs = [] ∨ evs = [EvParseSchema]).
Proof.
  intros Hremote _ Hwritable.
  rewrite (get_alert_schema_fetched w code body Hremote Hwritable).
  rewrite load_schema_unfold. simpl files. rewrite lookup_insert_eq.
  destruct (json_loads body) as [j|] eqn:Hj.
  - exists [EvParseSchema]. simpl. rewrite <- !app_assoc. repeat split; auto.
  - exists []. simpl. rewrite <- !app_assoc. repeat split; auto.
Qed.

(** *** The life of an instance *)

Lemma method_event_decode self (input : list byte) :
  method_event self (EvDecode (_parsed_schema self) input).
Proof. split; [reflexivity|]. by intros ? ? [= -> _]. Qed.

Lemma method_event_client self (ev : Event) :
  match ev with
  | EvPoll _ | EvConsume _ _ | EvClose => True
  | _ => False
  end → method_event self ev.
Proof. destruct ev; try done; intros _; split; done. Qed.

Lemma decode_events_method self (msgs : list Message) :
  Forall (method_event self) (decode_events (_parsed_schema self) msgs).
Proof.
  induction msgs; simpl; constructor; auto using method_event_decode.
Qed.

Lemma consume_loop_trace self (msgs : list Message) alerts w :
  ∃ evs,
    trace (snd (for_in msgs alerts (consume_body self) w)) = (trace w ++ evs)%list
    ∧ Forall (method_event self) evs.
Proof.
  destruct (decide (Forall (fun msg =>
              is_Some (read_datum (_parsed_schema self) (payload msg))) msgs))
    as [Hall|Hnot].
  - destruct (consume_loop_ok self msgs alerts w Hall) as (pairs & _ & ->).
    eexists. split; [apply emit_all_trace|apply decode_events_method].
  - apply not_Forall_Exists in Hnot; [|intros msg; apply _].
    assert (Hex : Exists (fun msg =>
              read_datum (_parsed_schema self) (payload msg) = None) msgs).
    { eapply Exists_impl; [exact Hnot|]. intros msg Hm. simpl in Hm.
      destruct (read_datum (_parsed_schema self) (payload msg)); [|reflexivity].
      exfalso. apply Hm. eauto. }
    destruct (consume_loop_fail self msgs alerts w Hex) as (before & _ & ->).
    eexists. split; [apply emit_all_trace|apply decode_events_method].
Qed.

Lemma kafka_call_trace {A} (ev : Event) (callee : Kafka → (string + A) * Kafka) w :
  trace (snd (kafka_call ev callee w)) = (trace w ++ [ev])%list.
Proof. unfold kafka_call. destruct (callee (kafka w)) as [[?|?] ?]; reflexivity. Qed.

(** A method call adds only method events to the trace. *)
Lemma run_call_trace self (c : call) w :
  ∃ evs,
    trace (run_call self c w) = (trace w ++ evs)%list
    ∧ Forall (method_event self) evs.
Proof.
  destruct c as [timeout|n timeout| | |]; simpl.
  - unfold poll. rewrite bind_unfold. unfold kafka_call.
    destruct (kafka_poll (_consumer self) timeout (kafka w)) as [[err|[msg|]] k'].
    + exists [EvPoll timeout]. split; [reflexivity|].
      repeat constructor; by apply method_event_client.
    + destruct (py_truthy_error (msg_error msg)).
      * exists [EvPoll timeout]. split; [reflexivity|].
        repeat constructor; by apply method_event_client.
      * rewrite bind_unfold, decode_avro_alert_unfold.
        exists [EvPoll timeout; EvDecode (_parsed_schema self) (payload msg)].
        split.
        { destruct (read_datum _ _); simpl; by rewrite <- app_assoc. }
        repeat constructor;
          [by apply method_event_client|apply method_event_decode].
    + exists [EvPoll timeout]. split; [reflexivity|].
      repeat constructor; by apply method_event_client.
  - rewrite consume_unfold, bind_unfold. unfold kafka_call.
    destruct (kafka_consume (_consumer self) n timeout (kafka w)) as [[err|msgs] k'].
    + exists [EvConsume n timeout]. split; [reflexivity|].
      repeat constructor; by apply method_event_client.
    + destruct (consume_loop_trace self msgs []
                  (set_kafka k' (emit (EvConsume n timeout) w)))
        as (evs & Htrace & Hevs).
      exists (EvConsume n timeout :: evs). split.
      * rewrite Htrace. simpl. by rewrite <- app_assoc.
      * constructor; [by apply method_event_client|exact Hevs].
  - exists [EvClose]. split; [apply kafka_call_trace|].
    repeat constructor; by apply method_event_client.
  - exists []. split; [by rewrite app_nil_r|constructor].
  - exists [EvClose]. split; [apply kafka_call_trace|].
    repeat constructor; by apply method_event_client.
Qed.

(** Through a whole life, only method events are added. *)
Lemma lifetime_trace self w w' :
  lifetime self w w' →
  ∃ evs, trace w' = (trace w ++ evs)%list ∧ Forall (method_event self) evs.
Proof.
  induction 1 as [w|w w' c _ (evs & Htr & Hevs)|w w' w'' _ (evs & Htr & Hevs) Hsame].
  - exists []. split; [by rewrite app_nil_r|constructor].
  - destruct (run_call_trace self c w') as (evs' & Htr' & Hevs').
    exists (evs ++ evs')%list. split.
    + by rewrite Htr', Htr, <- app_assoc.
    + by apply Forall_app.
  - exists evs. split; [by rewrite Hsame|exact Hevs].
Qed.

(** A resolution that returns a schema parsed exactly one definition. *)
Lemma load_schema_once (path : string) w (s : Schema) w' :
  load_schema path w = (Ok s, w') →
  trace w' = (trace w ++ [EvOpenRead path; EvParseSchema])%list.
Proof.
  rewrite load_schema_unfold. unfold parsed.
  destruct (files w !! path) as [content|]; [|intros [=]].
  destruct (json_loads content) as [j|]; [|intros [=]].
  intros [= _ <-]. simpl. by rewrite <- app_assoc.
Qed.

Lemma get_alert_schema_once (schema_path : option string) w (s : Schema) w' :
  _get_alert_schema schema_path w = (Ok s, w') →
  ∃ evs,
    trace w' = (trace w ++ evs)%list
    ∧ length (filter (fun ev => is_parse ev = true) evs) = 1%nat.
Proof.
  destruct schema_path as [path|].
  - rewrite get_alert_schema_given. intros Hload.
    apply load_schema_once in Hload. eexists. split; [exact Hload|reflexivity].
  - destruct (remote w) as [code body|why] eqn:Hremote.
    + destruct (decide (schema_cache_path w ∈ unwritable w)) as [Hun|Hwr].
      * rewrite (get_alert_schema_unwritable w code body Hremote Hun). intros [=].
      * rewrite (get_alert_schema_fetched w code body Hremote Hwr). intros Hload.
        apply load_schema_once in Hload. simpl in Hload.
        eexists. split; [rewrite Hload, <- !app_assoc; reflexivity|reflexivity].
    + rewrite (get_alert_schema_fallback w why Hremote). intros Hload.
      apply load_schema_once in Hload. simpl in Hload.
      eexists. split; [rewrite Hload, <- !app_assoc; reflexivity|reflexivity].
Qed.

(** C8. Construction resolves the schema once: the schema of the
    instance is the one [_get_alert_schema] returned in the world of
    construction, and one schema definition was parsed.  Whatever calls
    of [poll], [consume], [close], [__enter__] and [__exit__] follow, and
    however the world changes between them, none sends a request, reads
    or writes a schema file, or parses a definition, and every decode is
    done with the schema of the instance. *)
Theorem schema_resolved_once (topics : list string) (config : gmap string string)
    (schema : option string) self w0 w1 w2 :
  __init__ topics config schema w0 = (Ok self, w1) →
  lifetime self w1 w2 →
  (∃ w', _get_alert_schema schema w0 = (Ok (_parsed_schema self), w'))
  ∧ (∃ evs, trace w1 = (trace w0 ++ evs)%list
            ∧ length (filter (fun ev => is_parse ev = true) evs) = 1%nat)
  ∧ (∃ evs, trace w2 = (trace w1 ++ evs)%list
            ∧ Forall (fun ev => resolves ev = false) evs
            ∧ ∀ s input, EvDecode s input ∈ evs → s = _parsed_schema self).
Proof.
  intros Hinit Hlife.
  unfold __init__ in Hinit. rewrite bind_unfold in Hinit. unfold lift in Hinit.
  destruct (_get_kafka_config config) as [kc|e]; [|discriminate].
  rewrite bind_unfold in Hinit.
  destruct (_get_alert_schema schema w0) as [[s|e] wa] eqn:Hres; [|discriminate].
  rewrite bind_unfold in Hinit.
  pose proof (kafka_call_trace (EvConsumerNew kc) (kafka_Consumer kc) wa) as Hnew.
  destruct (kafka_call (EvConsumerNew kc) (kafka_Consumer kc) wa)
    as [[consumer|e] wb]; [|discriminate].
  rewrite bind_unfold in Hinit.
  pose proof (kafka_call_trace (EvSubscribe topics)
                (kafka_subscribe consumer topics) wb) as Hsub.
  destruct (kafka_call (EvSubscribe topics) (kafka_subscribe consumer topics) wb)
    as [[[]|e] wc]; [|discriminate].
  injection Hinit as <- <-. simpl in *.
  split; [eauto|]. split.
  - destruct (get_alert_schema_once schema w0 s wa Hres) as (evs & Htr & Hone).
    exists (evs ++ [EvConsumerNew kc; EvSubscribe topics])%list. split.
    + rewrite Hsub, Hnew, Htr, <- !app_assoc. reflexivity.
    + rewrite filter_app, length_app, Hone. reflexivity.
  - destruct (lifetime_trace _ _ _ Hlife) as (evs & Htr & Hevs).
    exists evs. split; [exact Htr|]. split.
    + eapply Forall_impl; [exact Hevs|]. by intros ev [? _].
    + intros s' input Hin.
      rewrite Forall_forall in Hevs. destruct (Hevs _ Hin) as [_ Hdec].
      eapply Hdec. reflexivity.
Qed.

End ConsumerFacts.

(** ** The codec model reads back what it writes *)

Module AvroFacts.

Import Avro.

#[local] Open Scope Z_scope.

Lemma Z_of_byte_of_Z (z : Z) : Z_of_byte (byte_of_Z z) = Z.land z 255.
Proof.
  unfold Z_of_byte, byte_of_Z.
  assert (Hr : 0 <= z mod 256 < 256) by (apply Z.mod_pos_bound; lia).
  pose proof (Byte.to_of_N_option_map (Z.to_N (z mod 256))) as Hb.
  destruct (Byte.of_N (Z.to_N (z mod 256))) as [b|] eqn:Hof.
  - simpl. apply Byte.to_of_N in Hof. rewrite Hof, Z2N.id by lia.
    change 255 with (Z.ones 8). rewrite Z.land_ones by lia. reflexivity.
  - simpl in Hb. destruct (N.leb_spec (Z.to_N (z mod 256)) 255); [discriminate|lia].
Qed.

Lemma Z_of_byte_small (z : Z) : 0 <= z < 256 → Z_of_byte (byte_of_Z z) = z.
Proof.
  intros Hz. rewrite Z_of_byte_of_Z. change 255 with (Z.ones 8).
  rewrite Z.land_ones by lia. apply Z.mod_small. lia.
Qed.

Lemma Z_of_byte_range (b : byte) : 0 <= Z_of_byte b < 256.
Proof.
  unfold Z_of_byte. pose proof (Byte.to_N_bounded b) as Hb.
  lia.
Qed.

(** *** Longs *)

Lemma high_bits_zero (n : Z) : 0 <= n → (Z.land n (Z.lnot 127) =? 0) = (n <? 128).
Proof.
  intros Hn. change (Z.land n (Z.lnot 127)) with (Z.ldiff n (Z.ones 7)).
  rewrite Z.ldiff_ones_r by lia.
  rewrite Z.shiftr_div_pow2, Z.shiftl_mul_pow2 by lia. change (2 ^ 7) with 128.
  destruct (Z.ltb_spec n 128) as [Hlt|Hge].
  - rewrite Z.div_small by lia. reflexivity.
  - apply Z.eqb_neq. assert (1 <= n / 128) by (apply Z.div_le_lower_bound; lia). lia.
Qed.

Lemma low_then_high (n : Z) :
  Z.lor (Z.land n 127) (Z.shiftl (Z.shiftr n 7) 7) = n.
Proof.
  change 127 with (Z.ones 7). rewrite <- Z.ldiff_ones_r by lia.
  rewrite Z.lor_comm. apply Z.lor_ldiff_and.
Qed.

Lemma continued_byte (n : Z) :
  Z.land (Z_of_byte (byte_of_Z (Z.lor (Z.land n 127) 128))) 127 = Z.land n 127
  ∧ Z.land (Z_of_byte (byte_of_Z (Z.lor (Z.land n 127) 128))) 128 = 128.
Proof.
  rewrite Z_of_byte_of_Z. split.
  - rewrite <- Z.land_assoc. change (Z.land 255 127) with 127.
    rewrite Z.land_lor_distr_l, <- Z.land_assoc.
    change (Z.land 127 127) with 127. change (Z.land 128 127) with 0.
    apply Z.lor_0_r.
  - rewrite <- Z.land_assoc. change (Z.land 255 128) with 128.
    rewrite Z.land_lor_distr_l, <- Z.land_assoc.
    change (Z.land 127 128) with 0. change (Z.land 128 128) with 128.
    rewrite Z.land_0_r. reflexivity.
Qed.

Lemma last_byte (n : Z) :
  0 <= n < 128 →
  Z.land (Z_of_byte (byte_of_Z n)) 127 = n
  ∧ Z.land (Z_of_byte (byte_of_Z n)) 128 = 0.
Proof.
  intros Hn. rewrite Z_of_byte_small by lia. split.
  - change 127 with (Z.ones 7). rewrite Z.land_ones by lia. apply Z.mod_small. lia.
  - change 128 with (Z.shiftl 1 7).
    apply Z.bits_inj'. intros i Hi. rewrite Z.land_spec, Z.bits_0.
    destruct (Z.ltb_spec i 7).
    + rewrite Z.shiftl_spec_low by lia. apply andb_false_r.
    + rewrite (Z.bits_above_log2 n i); [reflexivity|lia|].
      destruct (Z.eq_dec n 0) as [->|]; [simpl; lia|].
      assert (Z.log2 n < 7) by (apply Z.log2_lt_pow2; lia). lia.
Qed.

(** The bytes of a number that is not negative are read back as the
    number, shifted in above what was read before. *)
Lemma read_write_varint (fuel : nat) :
  ∀ (n acc shift : Z) (rest : list byte),
    0 <= n < 2 ^ (7 * Z.of_nat (S fuel)) → 0 <= shift →
    ∃ enc,
      write_varint (S fuel) n = Some enc
      ∧ read_varint (enc ++ rest) acc shift
          = Some (Z.lor acc (Z.shiftl n shift), rest).
Proof.
  induction fuel as [|fuel IH]; intros n acc shift rest Hn Hshift.
  - change (write_varint 1 n) with
      (if Z.land n (Z.lnot 127) =? 0 then Some [byte_of_Z n]
       else rest ← None; Some (byte_of_Z (Z.lor (Z.land n 127) 128) :: rest)).
    rewrite high_bits_zero by lia.
    change (2 ^ (7 * Z.of_nat 1)) with 128 in Hn.
    destruct (Z.ltb_spec n 128); [|lia].
    exists [byte_of_Z n]. split; [reflexivity|]. simpl.
    destruct (last_byte n) as [-> ->]; [lia|]. reflexivity.
  - change (write_varint (S (S fuel)) n) with
      (if Z.land n (Z.lnot 127) =? 0 then Some [byte_of_Z n]
       else rest ← write_varint (S fuel) (Z.shiftr n 7);
            Some (byte_of_Z (Z.lor (Z.land n 127) 128) :: rest)).
    rewrite high_bits_zero by lia.
    destruct (Z.ltb_spec n 128) as [Hlt|Hge].
    + exists [byte_of_Z n]. split; [reflexivity|]. simpl.
      destruct (last_byte n) as [-> ->]; [lia|]. reflexivity.
    + destruct (IH (Z.shiftr n 7)
                  (Z.lor acc (Z.shiftl (Z.land n 127) shift)) (shift + 7) rest)
        as (enc & Hw & Hr); [|lia|].
      { rewrite Z.shiftr_div_pow2 by lia. split; [apply Z.div_pos; lia|].
        apply Z.div_lt_upper_bound; [lia|].
        rewrite <- Z.pow_add_r by lia.
        replace (7 + 7 * Z.of_nat (S fuel)) with (7 * Z.of_nat (S (S fuel))) by lia.
        lia. }
      rewrite Hw. eexists. split; [reflexivity|].
      cbn [app read_varint].
      destruct (continued_byte n) as [-> ->]. change (128 =? 0) with false.
      cbv iota. rewrite Hr. f_equal. f_equal.
      rewrite <- Z.lor_assoc. f_equal.
      rewrite (Z.add_comm shift 7), <- (Z.shiftl_shiftl _ 7 shift) by lia.
      rewrite <- Z.shiftl_lor, low_then_high. reflexivity.
Qed.

Lemma read_long_from_varint (bs : list byte) :
  read_long bs =
    '(n, rest) ← read_varint bs 0 0;
    Some (Z.lxor (Z.shiftr n 1) (- Z.land n 1), rest).
Proof.
  destruct bs as [|c bs]; [reflexivity|].
  unfold read_long. cbn [read_varint].
  rewrite Z.shiftl_0_r, Z.lor_0_l. reflexivity.
Qed.

Lemma zigzag_range (z : Z) :
  - 2 ^ 63 <= z < 2 ^ 63 →
  Z.lxor (Z.shiftl z 1) (Z.shiftr z 63) = (if z <? 0 then - 2 * z - 1 else 2 * z).
Proof.
  intros Hz. rewrite Z.shiftl_mul_pow2, Z.shiftr_div_pow2 by lia.
  destruct (Z.ltb_spec z 0) as [Hneg|Hpos].
  - assert (z / 2 ^ 63 = -1) as ->.
    { assert (z / 2 ^ 63 < 0) by (apply Z.div_lt_upper_bound; lia).
      assert (-1 <= z / 2 ^ 63) by (apply Z.div_le_lower_bound; lia). lia. }
    rewrite Z.lxor_m1_r. unfold Z.lnot. lia.
  - rewrite Z.div_small by lia. rewrite Z.lxor_0_r. lia.
Qed.

Lemma land_1 (n : Z) : Z.land n 1 = n mod 2.
Proof.
  change (Z.land n 1) with (Z.land n (Z.ones 1)).
  rewrite Z.land_ones by lia. reflexivity.
Qed.

Lemma unzigzag (z : Z) :
  let n := if z <? 0 then - 2 * z - 1 else 2 * z in
  Z.lxor (Z.shiftr n 1) (- Z.land n 1) = z.
Proof.
  cbv zeta. rewrite land_1.
  rewrite Z.shiftr_div_pow2 by lia. change (2 ^ 1) with 2.
  destruct (Z.ltb_spec z 0) as [Hneg|Hpos].
  - replace (- 2 * z - 1) with (1 + (- z - 1) * 2) by lia.
    rewrite Z.mod_add, Z.div_add by lia.
    change (1 mod 2) with 1. change (1 / 2) with 0. change (- (1)) with (-1).
    rewrite Z.lxor_m1_r. unfold Z.lnot. lia.
  - replace (2 * z) with (0 + z * 2) by lia.
    rewrite Z.mod_add, Z.div_add by lia.
    change (0 mod 2) with 0. change (0 / 2) with 0. simpl. apply Z.lxor_0_r.
Qed.

(** A long of 64 bits is written, and read back as it was. *)
Lemma read_write_long (z : Z) (rest : list byte) :
  in_bits 64 z = true →
  ∃ enc, write_long z = Some enc ∧ read_long (enc ++ rest) = Some (z, rest).
Proof.
  unfold in_bits. rewrite andb_true_iff, Z.leb_le, Z.ltb_lt.
  change (2 ^ (64 - 1)) with (2 ^ 63). intros Hz.
  unfold write_long. rewrite zigzag_range by lia.
  pose proof (unzigzag z) as Hun. cbv zeta in Hun.
  set (n := if z <? 0 then - 2 * z - 1 else 2 * z) in *.
  assert (Hn : 0 <= n) by (subst n; destruct (Z.ltb_spec z 0); lia).
  destruct (read_write_varint (Z.to_nat (Z.log2 n)) n 0 0 rest)
    as (enc & Hw & Hr); [|lia|].
  { split; [lia|].
    destruct (Z.eq_dec n 0) as [->|Hne]; [apply Z.pow_pos_nonneg; lia|].
    pose proof (Z.log2_nonneg n).
    eapply Z.lt_le_trans; [apply Z.log2_spec; lia|].
    apply Z.pow_le_mono_r; lia. }
  exists enc. split; [exact Hw|].
  rewrite read_long_from_varint, Hr. simpl.
  rewrite Z.shiftl_0_r, Z.lor_0_l, Hun. reflexivity.
Qed.

Lemma fits_in_bits (n : nat) : fits n = true → in_bits 64 (Z.of_nat n) = true.
Proof.
  unfold fits, in_bits. rewrite Z.ltb_lt, andb_true_iff, Z.leb_le, Z.ltb_lt.
  change (2 ^ (64 - 1)) with (2 ^ 63). lia.
Qed.

(** *** Induction over schemas, through unions and records *)

Lemma schema_nested_ind (P : schema → Prop) :
  P SNull → P SBoolean → P SInt → P SLong → P SBytes → P SString →
  (∀ name size, P (SFixed name size)) →
  (∀ name symbols, P (SEnum name symbols)) →
  (∀ items, P items → P (SArray items)) →
  (∀ branches, Forall P branches → P (SUnion branches)) →
  (∀ name fields, Forall (fun f => P f.2) fields → P (SRecord name fields)) →
  ∀ s, P s.
Proof.
  intros HNull HBoolean HInt HLong HBytes HString HFixed HEnum HArray HUnion HRecord.
  fix IH 1. intros [| | | | | |name size|name symbols|items|branches|name fields].
  - exact HNull.
  - exact HBoolean.
  - exact HInt.
  - exact HLong.
  - exact HBytes.
  - exact HString.
  - apply HFixed.
  - apply HEnum.
  - apply HArray, IH.
  - apply HUnion.
    exact ((fix all (bs : list schema) : Forall P bs :=
              match bs with
              | [] => List.Forall_nil P
              | b :: bs' => List.Forall_cons P b bs' (IH b) (all bs')
              end) branches).
  - apply HRecord.
    exact ((fix all (fs : list (string * schema)) : Forall (fun f => P f.2) fs :=
              match fs with
              | [] => List.Forall_nil _
              | f :: fs' => List.Forall_cons (fun f => P f.2) f fs' (IH f.2) (all fs')
              end) fields).
Qed.

(** *** The nested loops, unfolded *)

Lemma write_record_unfold (name : string) (fs : list (string * schema))
    (es : list (string * datum)) :
  write_data (SRecord name fs) (DDict es) = write_fields es fs.
Proof.
  cbn [write_data]. induction fs as [|[fname t] fs IH]; [reflexivity|].
  cbn [write_fields]. rewrite <- IH. reflexivity.
Qed.

Lemma read_record_unfold (name : string) (fs : list (string * schema))
    (bs : list byte) :
  read_data (SRecord name fs) bs =
    '(entries, bs) ← read_fields fs bs; Some (DDict entries, bs).
Proof.
  reflexivity.
Qed.

Lemma validate_record_unfold (name : string) (fs : list (string * schema))
    (es : list (string * datum)) :
  validate (SRecord name fs) (DDict es) = validate_fields fs es.
Proof.
  reflexivity.
Qed.

Lemma validate_union_unfold (bs : list schema) (d : datum) :
  validate (SUnion bs) d = existsb (fun b => validate b d) bs.
Proof.
  cbn [validate]. induction bs as [|b bs IH]; [reflexivity|].
  cbn [existsb]. rewrite <- IH. reflexivity.
Qed.

Lemma write_union_unfold (bs : list schema) (d : datum) :
  write_data (SUnion bs) d =
    index ← union_choose (fun b => validate b d) bs 0%nat None (-1);
    tag ← write_long (Z.of_nat index);
    body ← (b ← bs !! index; write_data b d);
    Some (tag ++ body)%list.
Proof.
  cbn [write_data].
  destruct (union_choose (fun b => validate b d) bs 0%nat None (-1)) as [index|];
    [|reflexivity].
  cbn [mbind option_bind].
  destruct (write_long (Z.of_nat index)) as [tag|]; [|reflexivity].
  cbn [mbind option_bind]. f_equal. clear tag. revert index.
  induction bs as [|b bs IH]; intros [|index]; try reflexivity.
  cbn [lookup list_lookup]. rewrite IH. reflexivity.
Qed.

Lemma read_union_unfold (bs : list schema) (input : list byte) :
  read_data (SUnion bs) input =
    '(index, rest) ← read_long input;
    i ← py_index (length bs) index;
    b ← bs !! i;
    read_data b rest.
Proof.
  cbn [read_data]. destruct (read_long input) as [[index rest]|]; [|reflexivity].
  cbn [mbind option_bind].
  destruct (py_index (length bs) index) as [i|]; [|reflexivity].
  cbn [mbind option_bind]. generalize i. clear.
  induction bs as [|b bs IH]; intros [|i]; try reflexivity.
  cbn [lookup list_lookup]. rewrite IH. reflexivity.
Qed.

Lemma well_formed_union (bs : list schema) :
  well_formed (SUnion bs) = true →
  fits (length bs) = true ∧ Forall (fun b => well_formed b = true) bs.
Proof.
  cbn [well_formed]. rewrite !andb_true_iff. intros [[[[Hfits _] _] _] Hall].
  split; [exact Hfits|]. clear Hfits.
  induction bs as [|b bs IH]; constructor;
    simpl in Hall; apply andb_true_iff in Hall as [Hb Hbs]; auto.
Qed.

Lemma well_formed_record (name : string) (fs : list (string * schema)) :
  well_formed (SRecord name fs) = true →
  NoDup (map fst fs) ∧ Forall (fun f => well_formed f.2 = true) fs.
Proof.
  cbn [well_formed]. rewrite andb_true_iff, bool_decide_eq_true.
  intros [Hnodup Hall]. split; [exact Hnodup|]. clear Hnodup.
  induction fs as [|[fname t] fs IH]; constructor;
    simpl in Hall; apply andb_true_iff in Hall as [Hb Hbs]; auto.
Qed.

Lemma sized_list (ds : list datum) :
  sized (DList ds) = true →
  fits (length ds) = true ∧ Forall (fun d => sized d = true) ds.
Proof.
  cbn [sized]. rewrite andb_true_iff. intros [Hfits Hall].
  split; [exact Hfits|]. clear Hfits.
  induction ds as [|d ds IH]; constructor;
    simpl in Hall; apply andb_true_iff in Hall as [Hb Hbs]; auto.
Qed.

Lemma sized_dict (es : list (string * datum)) :
  sized (DDict es) = true → Forall (fun e => sized e.2 = true) es.
Proof.
  cbn [sized]. intros Hall.
  induction es as [|[key v] es IH]; constructor;
    simpl in Hall; apply andb_true_iff in Hall as [Hb Hbs]; auto.
Qed.

(** *** Bytes, symbols, items *)

Lemma read_bytes_app (bs rest : list byte) :
  read_bytes (Z.of_nat (length bs)) (bs ++ rest) = (bs, rest).
Proof.
  unfold read_bytes. destruct (Z.ltb_spec (Z.of_nat (length bs)) 0); [lia|].
  rewrite Nat2Z.id, take_app_length, drop_app_length. reflexivity.
Qed.

Lemma py_index_nat (len i : nat) :
  (i < len)%nat → py_index len (Z.of_nat i) = Some i.
Proof.
  intros Hi. unfold py_index.
  destruct (Z.leb_spec 0 (Z.of_nat i)); [|lia].
  destruct (Z.ltb_spec (Z.of_nat i) (Z.of_nat len)); [|lia].
  by rewrite Nat2Z.id.
Qed.

Lemma py_list_index_lookup (symbols : list string) (t : string) :
  t ∈ symbols →
  ∃ i, py_list_index symbols t = Some i ∧ symbols !! i = Some t.
Proof.
  induction symbols as [|s symbols IH]; intros Hin; [by apply elem_of_nil in Hin|].
  cbn [py_list_index]. destruct (String.eqb_spec s t) as [->|Hne].
  - exists 0%nat. split; reflexivity.
  - apply elem_of_cons in Hin as [->|Hin]; [done|].
    destruct (IH Hin) as (i & -> & Hi). exists (S i). split; [reflexivity|exact Hi].
Qed.

Lemma fits_below (i n : nat) : (i ≤ n)%nat → fits n = true → fits i = true.
Proof. unfold fits. rewrite !Z.ltb_lt. lia. Qed.

(** The items of an array, written one after the other, are read back
    one after the other. *)
Lemma read_write_items (items : schema) (ds : list datum) (rest : list byte) :
  (∀ d rest, sized d = true → validate items d = true →
     ∃ enc, write_data items d = Some enc
            ∧ read_data items (enc ++ rest) = Some (d, rest)) →
  Forall (fun d => sized d = true) ds →
  forallb (validate items) ds = true →
  ∃ body,
    write_items (write_data items) ds = Some body
    ∧ read_items (read_data items) (length ds) (body ++ rest) = Some (ds, rest).
Proof.
  intros Hitem Hsized. revert rest.
  induction Hsized as [|d ds Hd _ IH]; intros rest Hvalid.
  - exists []. split; reflexivity.
  - cbn [forallb] in Hvalid. apply andb_true_iff in Hvalid as [Hv Hvs].
    destruct (IH rest Hvs) as (tail & Htail & Hread).
    destruct (Hitem d (tail ++ rest)%list Hd Hv) as (head & Hhead & Hread1).
    exists (head ++ tail)%list. split.
    + cbn [write_items]. rewrite Hhead, Htail. reflexivity.
    + cbn [length read_items]. rewrite <- app_assoc, Hread1.
      cbn [mbind option_bind]. rewrite Hread. reflexivity.
Qed.

Lemma write_long_zero : write_long 0 = Some [byte_of_Z 0].
Proof. reflexivity. Qed.

Lemma read_long_zero (rest : list byte) :
  read_long (byte_of_Z 0 :: rest) = Some (0, rest).
Proof. reflexivity. Qed.

(** *** The branch of a union *)

(** A branch the writer takes validates, and lies in the union. *)
Lemma union_choose_sound (ok : schema → bool) (candidates : list schema) :
  ∀ (index : nat) (best : option nat) (most_fields : Z) (j : nat),
    union_choose ok candidates index best most_fields = Some j →
    best = Some j
    ∨ ∃ b, candidates !! (j - index)%nat = Some b ∧ (index ≤ j)%nat ∧ ok b = true.
Proof.
  induction candidates as [|c cs IH]; intros index best most j Hchoose.
  - left. exact Hchoose.
  - cbn [union_choose] in Hchoose.
    assert (Hlater : ∀ best' most',
              union_choose ok cs (S index) best' most' = Some j →
              best' = Some j
              ∨ ∃ b, (c :: cs) !! (j - index)%nat = Some b
                     ∧ (index ≤ j)%nat ∧ ok b = true).
    { intros best' most' H. destruct (IH _ _ _ _ H) as [->|(b & Hb & Hle & Hok)];
        [by left|right].
      exists b. replace (j - index)%nat with (S (j - S index)) by lia.
      split; [exact Hb|]. split; [lia|exact Hok]. }
    assert (Hhere : ok c = true → ∀ best',
              best' = Some index →
              best' = Some j →
              ∃ b, (c :: cs) !! (j - index)%nat = Some b
                   ∧ (index ≤ j)%nat ∧ ok b = true).
    { intros Hok best' -> [= <-]. exists c. rewrite Nat.sub_diag.
      split; [reflexivity|]. split; [lia|exact Hok]. }
    destruct (ok c) eqn:Hok.
    + destruct c; try (right; eapply Hhere; eauto; fail).
      destruct (most <? Z.of_nat (length fields)).
      * destruct (Hlater _ _ Hchoose) as [Hbest|Hex]; [|by right].
        right. eapply Hhere; eauto.
      * destruct (Hlater _ _ Hchoose) as [Hbest|Hex]; [by left|by right].
    + destruct (Hlater _ _ Hchoose) as [Hbest|Hex]; [by left|by right].
Qed.

(** When a candidate validates, the writer takes a branch. *)
Lemma union_choose_complete (ok : schema → bool) (candidates : list schema) :
  ∀ (index : nat) (best : option nat) (most_fields : Z),
    (best = None → most_fields < 0) →
    existsb ok candidates = true ∨ is_Some best →
    is_Some (union_choose ok candidates index best most_fields).
Proof.
  induction candidates as [|c cs IH]; intros index best most Hinv Hsome.
  - destruct Hsome as [Hex|Hbest]; [discriminate|exact Hbest].
  - cbn [union_choose]. cbn [existsb] in Hsome.
    destruct (ok c) eqn:Hok.
    + destruct c; try (by eexists).
      destruct (Z.ltb_spec most (Z.of_nat (length fields))) as [Hlt|Hge].
      * apply IH; [discriminate|]. right. by eexists.
      * apply IH; [exact Hinv|]. right.
        destruct best; [by eexists|]. specialize (Hinv eq_refl). lia.
    + apply IH; [exact Hinv|]. destruct Hsome as [Hex|Hbest]; [by left|by right].
Qed.

(** *** The fields of a record *)

Lemma dict_get_member (es : list (string * datum)) (key : string) (v : datum) :
  NoDup (map fst es) → (key, v) ∈ es → dict_get es key = Some v.
Proof.
  induction es as [|[k u] es IH]; intros Hnodup Hin; [by apply elem_of_nil in Hin|].
  cbn [dict_get]. apply NoDup_cons in Hnodup as [Hfresh Hnodup].
  apply elem_of_cons in Hin as [[= <- <-]|Hin].
  - by rewrite String.eqb_refl.
  - destruct (String.eqb_spec k key) as [->|Hne]; [|by apply IH].
    exfalso. apply Hfresh. cbn [map fst].
    apply (list_elem_of_fmap_2 fst) in Hin. exact Hin.
Qed.

Lemma validate_fields_keys (fs : list (string * schema)) :
  ∀ es, validate_fields fs es = true → map fst es = map fst fs.
Proof.
  induction fs as [|[name t] fs IH]; intros [|[key v] es] Hvalid;
    try discriminate; [reflexivity|].
  cbn [validate_fields] in Hvalid.
  apply andb_true_iff in Hvalid as [Hhead Hrest].
  apply andb_true_iff in Hhead as [Hname _].
  apply String.eqb_eq in Hname as ->. cbn [map fst]. f_equal. by apply IH.
Qed.

(** *** Reading back what was written *)

Lemma read_write_fields (whole : list (string * datum))
    (fs : list (string * schema)) :
  Forall (fun f => reads_back f.2) fs →
  Forall (fun f => well_formed f.2 = true) fs →
  ∀ (es : list (string * datum)) (rest : list byte),
    validate_fields fs es = true →
    Forall (fun e => sized e.2 = true) es →
    (∀ key v, (key, v) ∈ es → dict_get whole key = Some v) →
    ∃ enc,
      write_fields whole fs = Some enc
      ∧ read_fields fs (enc ++ rest) = Some (es, rest).
Proof.
  intros Hback. induction Hback as [|[name t] fs Ht _ IH];
    intros Hwf [|[key v] es] rest Hvalid Hsized Hget; try discriminate.
  - exists []. split; reflexivity.
  - cbn [validate_fields] in Hvalid.
    apply andb_true_iff in Hvalid as [Hhead Hrest].
    apply andb_true_iff in Hhead as [Hname Hv].
    apply String.eqb_eq in Hname as <-.
    apply Forall_cons in Hwf as [Hwft Hwf].
    apply Forall_cons in Hsized as [Hsv Hsized].
    destruct (IH Hwf es rest Hrest Hsized) as (tail & Htail & Hread).
    { intros k u Hin. apply Hget. by apply elem_of_cons; right. }
    cbn [snd] in Ht, Hwft, Hsv.
    destruct (Ht Hwft v (tail ++ rest)%list Hsv Hv) as (head & Hhead & Hread1).
    exists (head ++ tail)%list. split.
    + cbn [write_fields]. rewrite (Hget name v) by (apply elem_of_cons; by left).
      rewrite Hhead. cbn [mbind option_bind]. rewrite Htail. reflexivity.
    + cbn [read_fields]. rewrite <- app_assoc, Hread1.
      cbn [mbind option_bind]. rewrite Hread. reflexivity.
Qed.

Lemma in_bits_32_64 (z : Z) : in_bits 32 z = true → in_bits 64 z = true.
Proof.
  unfold in_bits. rewrite !andb_true_iff, !Z.leb_le, !Z.ltb_lt.
  change (2 ^ (32 - 1)) with 2147483648.
  change (2 ^ (64 - 1)) with 9223372036854775808. lia.
Qed.

Lemma read_write_data (s : schema) : reads_back s.
Proof.
  induction s as [| | | | | |name size|name symbols|items IH|branches IH|name fields IH]
    using schema_nested_ind; intros Hwf d rest Hsized Hvalid.
  - (* null *)
    destruct d; try discriminate. exists []. split; reflexivity.
  - (* boolean *)
    destruct d as [|b| | | | |]; try discriminate.
    exists [byte_of_Z (if b then 1 else 0)]. split; [reflexivity|].
    cbn [app read_data]. rewrite Z_of_byte_small by (destruct b; lia).
    by destruct b.
  - (* int *)
    destruct d as [| |z| | | |]; try discriminate. cbn [validate] in Hvalid.
    destruct (read_write_long z rest (in_bits_32_64 z Hvalid)) as (enc & Hw & Hr).
    exists enc. split; [exact Hw|]. cbn [read_data]. by rewrite Hr.
  - (* long *)
    destruct d as [| |z| | | |]; try discriminate. cbn [validate] in Hvalid.
    destruct (read_write_long z rest Hvalid) as (enc & Hw & Hr).
    exists enc. split; [exact Hw|]. cbn [read_data]. by rewrite Hr.
  - (* bytes *)
    destruct d as [| | |bs| | |]; try discriminate. cbn [sized] in Hsized.
    destruct (read_write_long (Z.of_nat (length bs)) (bs ++ rest)
                (fits_in_bits _ Hsized)) as (size & Hw & Hr).
    exists (size ++ bs)%list. split.
    + cbn [write_data]. by rewrite Hw.
    + cbn [read_data]. rewrite <- app_assoc, Hr. cbn [mbind option_bind].
      by rewrite read_bytes_app.
  - (* string *)
    destruct d as [| | | |t| |]; try discriminate.
    cbn [sized] in Hsized. cbn [validate] in Hvalid.
    destruct (read_write_long (Z.of_nat (length (list_byte_of_string t)))
                (list_byte_of_string t ++ rest) (fits_in_bits _ Hsized))
      as (size & Hw & Hr).
    exists (size ++ list_byte_of_string t)%list. split.
    + cbn [write_data]. cbv zeta. by rewrite Hw.
    + cbn [read_data]. rewrite <- app_assoc, Hr. cbn [mbind option_bind].
      rewrite read_bytes_app, Hvalid, string_of_list_byte_of_string. reflexivity.
  - (* fixed *)
    destruct d as [| | |bs| | |]; try discriminate. cbn [validate] in Hvalid.
    apply bool_decide_eq_true in Hvalid as <-.
    exists bs. split; [reflexivity|]. cbn [read_data].
    by rewrite read_bytes_app.
  - (* enum *)
    destruct d as [| | | |t| |]; try discriminate. cbn [validate] in Hvalid.
    apply bool_decide_eq_true in Hvalid.
    destruct (py_list_index_lookup symbols t Hvalid) as (i & Hindex & Hlookup).
    pose proof (lookup_lt_Some _ _ _ Hlookup) as Hlt.
    cbn [well_formed] in Hwf.
    destruct (read_write_long (Z.of_nat i) rest) as (enc & Hw & Hr).
    { apply fits_in_bits. apply (fits_below i (length symbols)); [lia|exact Hwf]. }
    exists enc. split.
    + cbn [write_data]. rewrite Hindex. exact Hw.
    + cbn [read_data]. rewrite Hr. cbn [mbind option_bind].
      rewrite py_index_nat by exact Hlt. cbn [mbind option_bind].
      rewrite Hlookup. reflexivity.
  - (* array *)
    destruct d as [| | | | |ds|]; try discriminate. cbn [validate] in Hvalid.
    apply sized_list in Hsized as [Hfits Hsized]. cbn [well_formed] in Hwf.
    destruct (read_write_items items ds (byte_of_Z 0 :: rest) (IH Hwf) Hsized Hvalid)
      as (body & Hbody & Hread).
    cbn [write_data]. rewrite Hbody. cbn [mbind option_bind].
    rewrite write_long_zero. cbn [mbind option_bind].
    destruct ds as [|d ds].
    + exists [byte_of_Z 0]. split; [reflexivity|].
      cbn [read_data app]. rewrite read_long_zero. reflexivity.
    + rewrite bool_decide_eq_true_2 by (cbn [length]; lia).
      destruct (read_write_long (Z.of_nat (length (d :: ds)))
                  (body ++ byte_of_Z 0 :: rest) (fits_in_bits _ Hfits))
        as (count & Hw & Hr).
      rewrite Hw. cbn [mbind option_bind].
      exists (count ++ body ++ [byte_of_Z 0])%list. split; [reflexivity|].
      cbn [read_data].
      replace ((count ++ body ++ [byte_of_Z 0]) ++ rest)%list
        with (count ++ body ++ byte_of_Z 0 :: rest)%list
        by (by rewrite <- !app_assoc).
      rewrite Hr. cbn [mbind option_bind].
      assert (Hfuel : ∃ f, length (count ++ body ++ byte_of_Z 0 :: rest) = S f).
      { rewrite !length_app. cbn [length]. exists (length count + (length body + length rest))%nat. lia. }
      destruct Hfuel as [f ->].
      cbn [read_blocks].
      destruct (Z.eqb_spec (Z.of_nat (length (d :: ds))) 0) as [H0|_];
        [cbn [length] in H0; lia|].
      destruct (Z.ltb_spec (Z.of_nat (length (d :: ds))) 0) as [Hneg|_]; [lia|].
      cbn [mbind option_bind]. rewrite Nat2Z.id, Hread.
      cbn [mbind option_bind]. rewrite read_long_zero.
      cbn [mbind option_bind]. reflexivity.
  - (* union *)
    rewrite validate_union_unfold in Hvalid.
    apply well_formed_union in Hwf as [Hfits Hwf].
    destruct (union_choose_complete (fun b => validate b d) branches 0%nat None (-1))
      as [j Hj]; [lia|by left|].
    destruct (union_choose_sound _ _ _ _ _ _ Hj) as [[=]|(b & Hb & _ & Hok)].
    rewrite Nat.sub_0_r in Hb.
    pose proof (lookup_lt_Some _ _ _ Hb) as Hlt.
    rewrite Forall_lookup in IH. rewrite Forall_lookup in Hwf.
    destruct (IH j b Hb (Hwf j b Hb) d rest Hsized Hok) as (body & Hbody & Hread).
    destruct (read_write_long (Z.of_nat j) (body ++ rest)) as (tag & Hw & Hr).
    { apply fits_in_bits. apply (fits_below j (length branches)); [lia|exact Hfits]. }
    exists (tag ++ body)%list. split.
    + rewrite write_union_unfold, Hj. cbn [mbind option_bind].
      rewrite Hw. cbn [mbind option_bind]. rewrite Hb. cbn [mbind option_bind].
      rewrite Hbody. reflexivity.
    + rewrite read_union_unfold, <- app_assoc, Hr. cbn [mbind option_bind].
      rewrite py_index_nat by exact Hlt. cbn [mbind option_bind].
      rewrite Hb. cbn [mbind option_bind]. exact Hread.
  - (* record *)
    destruct d as [| | | | | |es]; try discriminate.
    rewrite validate_record_unfold in Hvalid.
    apply well_formed_record in Hwf as [Hnodup Hwf].
    apply sized_dict in Hsized.
    destruct (read_write_fields es fields IH Hwf es rest Hvalid Hsized)
      as (enc & Hw & Hr).
    { intros key v Hin. apply dict_get_member; [|exact Hin].
      by rewrite (validate_fields_keys _ _ Hvalid). }
    exists enc. split.
    + rewrite write_record_unfold. exact Hw.
    + rewrite read_record_unfold, Hr. reflexivity.
Qed.

#[local] Existing Instance avro_codec.

(** C9. Let [record] be a datum the writer accepts for a schema of the
    model, an empty record, a record with records inside and a record
    whose optional fields are null among them.  The writer returns a
    buffer, and [_decode_avro_alert] on a stream over that buffer, at
    whatever position the stream stands, returns the record: it decodes
    from the start of the buffer. *)
Theorem decode_after_encode `{Broker : BrokerClient}
    (s : schema) (record : datum) (pos : nat) (w : @World avro_codec Broker) :
  well_formed s = true →
  sized record = true →
  validate s record = true →
  ∃ enc,
    Avro.schemaless_writer s record = Some enc
    ∧ @_decode_avro_alert avro_codec Broker
        {| bio_buf := enc; bio_pos := pos |} s w
      = (Ok record, emit (EvDecode s enc) w).
Proof.
  intros Hwf Hsized Hvalid.
  destruct (read_write_data s Hwf record [] Hsized Hvalid) as (enc & Hw & Hr).
  rewrite app_nil_r in Hr.
  exists enc. split; [exact Hw|].
  rewrite decode_avro_alert_unfold. cbn [bio_buf read_datum avro_codec].
  unfold Avro.schemaless_reader. rewrite Hr. reflexivity.
Qed.

End AvroFacts.

(** ** Runs on the instances *)

Section Examples.

Import Avro.

#[local] Existing Instance avro_codec.
#[local] Existing Instance queue_broker.

Lemma pair_from_fst {A B} (p : A * B) (a : A) : fst p = a → p = (a, snd p).
Proof. destruct p. simpl. by intros ->. Qed.

Lemma with_remote_trace (r : http_outcome) (w : World) :
  trace (with_remote r w) = trace w.
Proof. reflexivity. Qed.

Example alert_schema_parses : parsed alert_schema_text = Ok alert_schema.
Proof. vm_compute. reflexivity. Qed.

Example schema_paths :
  default_schema_path offline_world = default_file
  ∧ schema_cache_path offline_world = cache_file.
Proof. split; vm_compute; reflexivity. Qed.

Example init_offline :
  fst (__init__ example_topics anonymous_config None offline_world)
  = Ok example_consumer.
Proof. reflexivity. Qed.

Example init_not_found :
  fst (__init__ example_topics anonymous_config None not_found_world)
  = Raise JSONDecodeError.
Proof. reflexivity. Qed.

Example poll_failed_message_text :
  fst (poll example_consumer 1%Z offline_world)
  = Raise (AlertError
      ("Error: <built-in method error of cimpl.Message object at 0x7f3a451c9d40>"
       ++ nl ++ "topic: alerts[0] at offset: 42 with key: "
       ++ "<built-in method key of cimpl.Message object at 0x7f3a451c9d40>")).
Proof. vm_compute. reflexivity. Qed.

Example consume_failed_message :
  fst (consume example_consumer 5%Z 1%Z offline_world)
  = Ok [(Some "alerts", nested_record); (Some "alerts", nested_record)].
Proof. vm_compute. reflexivity. Qed.

(** *** The theorems at these inputs *)

Lemma get_alert_schema_non_2xx_no_fallback_witness :
  remote not_found_world = HttpResponse 404 "404: Not Found"
  ∧ ¬ (200 ≤ 404 < 300)%Z
  ∧ (schema_cache_path not_found_world ∉ unwritable not_found_world)
  ∧ ∃ evs,
      fst (_get_alert_schema None not_found_world) = parsed "404: Not Found"
      ∧ files (snd (_get_alert_schema None not_found_world))
          = <[schema_cache_path not_found_world := "404: Not Found"]>
              (files not_found_world)
      ∧ stdout (snd (_get_alert_schema None not_found_world))
          = (stdout not_found_world ++ [getting_notice])%list
      ∧ trace (snd (_get_alert_schema None not_found_world))
          = (trace not_found_world
             ++ [EvPrint getting_notice; EvHttpGet schema_url 1;
                 EvOpenWrite (schema_cache_path not_found_world);
                 EvOpenRead (schema_cache_path not_found_world)] ++ evs)%list
      ∧ (evs = [] ∨ evs = [EvParseSchema]).
Proof.
  assert (H1 : remote not_found_world = HttpResponse 404 "404: Not Found")
    by reflexivity.
  assert (H2 : ¬ (200 ≤ 404 < 300)%Z) by lia.
  assert (H3 : schema_cache_path not_found_world ∉ unwritable not_found_world)
    by (simpl; apply not_elem_of_empty).
  split; [exact H1|]. split; [exact H2|]. split; [exact H3|].
  exact (get_alert_schema_non_2xx_no_fallback not_found_world 404
           "404: Not Found" H1 H2 H3).
Defined.

Lemma poll_error_text_has_no_key_witness :
  kafka_poll (_consumer example_consumer) 1%Z (kafka offline_world)
    = (inr (Some failed_message), [good_message])
  ∧ msg_error failed_message
    = Some {| kerr_code := -191; kerr_str := "Broker: No more messages" |}
  ∧ poll example_consumer 1%Z offline_world =
      (Raise (AlertError (poll_error_message failed_message)),
       set_kafka [good_message] (emit (EvPoll 1%Z) offline_world))
  ∧ poll_error_message (with_key (Some [x6b; x32]) failed_message)
    = poll_error_message failed_message.
Proof.
  split; [reflexivity|]. split; [reflexivity|].
  destruct (poll_error_text_has_no_key example_consumer 1%Z offline_world
              [good_message] failed_message
              {| kerr_code := -191; kerr_str := "Broker: No more messages" |}
              (Some [x6b; x32]) eq_refl eq_refl) as (Hraise & _ & Hkey).
  split; [exact Hraise|exact Hkey].
Defined.

Lemma init_without_group_id_witness :
  no_group_config !! "group_id" = None
  ∧ _get_kafka_config no_group_config = Raise (KeyError "group_id")
  ∧ __init__ example_topics no_group_config (Some own_file) offline_world
    = (Raise (KeyError "group_id"), offline_world).
Proof.
  split; [reflexivity|].
  exact (init_without_group_id example_topics no_group_config (Some own_file)
           offline_world eq_refl).
Defined.

Lemma poll_no_message_witness :
  kafka_poll (_consumer example_consumer) 3%Z (kafka idle_world) = (inr None, [])
  ∧ poll example_consumer 3%Z idle_world =
      (Ok (None, DNone), set_kafka [] (emit (EvPoll 3%Z) idle_world)).
Proof.
  split; [reflexivity|].
  exact (poll_no_message example_consumer 3%Z idle_world [] eq_refl).
Defined.

Lemma consume_one_pair_per_message_witness :
  kafka_consume (_consumer example_consumer) 5%Z 1%Z (kafka offline_world)
    = (inr [failed_message; good_message], [])
  ∧ (Z.of_nat (length [failed_message; good_message]) ≤ 5)%Z
  ∧ ((Forall (fun msg =>
                is_Some (read_datum (_parsed_schema example_consumer) (payload msg)))
        [failed_message; good_message]
      ∧ ∃ pairs w',
          consume example_consumer 5%Z 1%Z offline_world = (Ok pairs, w')
          ∧ (Z.of_nat (length pairs) ≤ 5)%Z
          ∧ Forall2 (pair_of (_parsed_schema example_consumer))
              [failed_message; good_message] pairs)
     ∨ (Exists (fun msg =>
                  read_datum (_parsed_schema example_consumer) (payload msg) = None)
          [failed_message; good_message]
        ∧ ∃ w', consume example_consumer 5%Z 1%Z offline_world
                = (Raise DecodeError, w'))).
Proof.
  assert (H1 : kafka_consume (_consumer example_consumer) 5%Z 1%Z (kafka offline_world)
               = (inr [failed_message; good_message], [])) by reflexivity.
  assert (H2 : (Z.of_nat (length [failed_message; good_message]) ≤ 5)%Z)
    by (simpl; lia).
  split; [exact H1|]. split; [exact H2|].
  exact (consume_one_pair_per_message example_consumer 5%Z 1%Z offline_world
           [failed_message; good_message] [] H1 H2).
Defined.

Lemma schema_resolved_once_witness :
  __init__ example_topics anonymous_config None offline_world
    = (Ok example_consumer, constructed_world)
  ∧ lifetime example_consumer constructed_world
      (run_call example_consumer (CallConsume 5%Z 1%Z) online_world)
  ∧ (∃ w', _get_alert_schema None offline_world
           = (Ok (_parsed_schema example_consumer), w'))
  ∧ (∃ evs, trace constructed_world = (trace offline_world ++ evs)%list
            ∧ length (filter (fun ev => is_parse ev = true) evs) = 1%nat)
  ∧ (∃ evs, trace (run_call example_consumer (CallConsume 5%Z 1%Z) online_world)
            = (trace constructed_world ++ evs)%list
            ∧ Forall (fun ev => resolves ev = false) evs
            ∧ ∀ s input, EvDecode s input ∈ evs → s = _parsed_schema example_consumer).
Proof.
  assert (H1 : __init__ example_topics anonymous_config None offline_world
               = (Ok example_consumer, constructed_world)).
  { unfold constructed_world. exact (pair_from_fst _ _ init_offline). }
  assert (H2 : lifetime example_consumer constructed_world
                 (run_call example_consumer (CallConsume 5%Z 1%Z) online_world)).
  { exact (lifetime_call example_consumer constructed_world online_world
             (CallConsume 5%Z 1%Z)
             (lifetime_elsewhere example_consumer constructed_world
                constructed_world online_world
                (lifetime_start example_consumer constructed_world)
                (with_remote_trace _ constructed_world))). }
  split; [exact H1|]. split; [exact H2|].
  exact (schema_resolved_once example_topics anonymous_config None
           example_consumer offline_world constructed_world _ H1 H2).
Defined.

Lemma decode_after_encode_witness :
  (∃ enc,
     schemaless_writer empty_schema empty_record = Some enc
     ∧ _decode_avro_alert {| bio_buf := enc; bio_pos := 0 |} empty_schema offline_world
       = (Ok empty_record, emit (EvDecode empty_schema enc) offline_world))
  ∧ (∃ enc,
       schemaless_writer alert_schema nested_record = Some enc
       ∧ _decode_avro_alert {| bio_buf := enc; bio_pos := 7 |} alert_schema offline_world
         = (Ok nested_record, emit (EvDecode alert_schema enc) offline_world))
  ∧ (∃ enc,
       schemaless_writer optional_schema null_record = Some enc
       ∧ _decode_avro_alert {| bio_buf := enc; bio_pos := 3 |} optional_schema offline_world
         = (Ok null_record, emit (EvDecode optional_schema enc) offline_world)).
Proof.
  split; [|split].
  - exact (AvroFacts.decode_after_encode empty_schema empty_record 0 offline_world
             eq_refl eq_refl eq_refl).
  - exact (AvroFacts.decode_after_encode alert_schema nested_record 7 offline_world
             eq_refl eq_refl eq_refl).
  - exact (AvroFacts.decode_after_encode optional_schema null_record 3 offline_world
             eq_refl eq_refl eq_refl).
Defined.

End Examples.

(** * Further properties *)

(** ** Paths of the schema files *)

Lemma string_app_assoc (a b c : string) : (a ++ b) ++ c = a ++ (b ++ c).
Proof.
  induction a as [|x a IH]; [reflexivity|].
  change (String x ((a ++ b) ++ c) = String x (a ++ (b ++ c))). by rewrite IH.
Qed.

Lemma string_app_inv_head (a s1 s2 : string) : a ++ s1 = a ++ s2 → s1 = s2.
Proof.
  induction a as [|x a IH]; [done|].
  change (String x (a ++ s1) = String x (a ++ s2) → s1 = s2).
  intros [= H]. by apply IH.
Qed.

Lemma string_app_empty (a b : string) : a ++ b = "" → b = "".
Proof. destruct a; [done|discriminate]. Qed.

(** A string that is not empty ends with its last character. *)
Lemma string_last_char (a : string) (d : ascii) :
  a ≠ "" → ∃ front, a = front ++ String (List.last (list_ascii_of_string a) d) "".
Proof.
  induction a as [|x a IH]; [done|]. intros _.
  destruct a as [|y a'].
  - exists "". reflexivity.
  - destruct IH as [front Hfront]; [discriminate|].
    exists (String x front).
    change (String x (String y a') =
            String x (front ++ String (List.last (list_ascii_of_string (String y a')) d) "")).
    by rewrite <- Hfront.
Qed.

Lemma os_path_join_relative (a : string) :
  ∃ z, slash_ended z ∧ ∀ b, String.prefix "/" b = false → os_path_join a b = z ++ b.
Proof.
  unfold os_path_join. destruct (String.eqb_spec a "") as [->|Hne].
  - exists "". split; [by left|]. intros b ->. reflexivity.
  - destruct (Ascii.eqb_spec (List.last (list_ascii_of_string a) "/"%char) "/"%char)
      as [Hlast|Hlast].
    + exists a. split.
      * right. destruct (string_last_char a "/"%char Hne) as [front Hfront].
        rewrite Hlast in Hfront. by exists front.
      * intros b ->. reflexivity.
    + exists (a ++ "/"). split; [right; by exists a|].
      intros b ->. by rewrite string_app_assoc.
Qed.

Lemma slash_ended_app (y z : string) :
  slash_ended y → slash_ended z → slash_ended (y ++ z).
Proof.
  intros [->|[fy ->]] [->|[fz ->]].
  - by left.
  - right. by exists fz.
  - right. exists fy. by rewrite append_empty_r.
  - right. exists ((fy ++ "/") ++ fz). by rewrite !string_app_assoc.
Qed.

Lemma prefix_slash_app (z b : string) :
  z ≠ "" → String.prefix "/" (z ++ b) = String.prefix "/" z.
Proof.
  destruct z as [|c z]; [done|]. intros _.
  change (String.prefix "/" (String c (z ++ b)) = String.prefix "/" (String c z)).
  cbn [String.prefix]. destruct (ascii_dec "/" c); [|reflexivity].
  by destruct (z ++ b), z.
Qed.

(** What [os.path.abspath] normalises for a path beside the module:
    the relative part after something that does not depend on it. *)
Lemma abspath_argument (cwd dir : string) :
  ∃ y, slash_ended y
       ∧ ∀ rel, String.prefix "/" rel = false →
           os_path_abspath cwd (os_path_join dir rel)
           = os_path_normpath (y ++ rel).
Proof.
  destruct (os_path_join_relative dir) as (z & Hz & Hjoin).
  destruct (os_path_join_relative cwd) as (zc & Hzc & Hjoinc).
  unfold os_path_abspath.
  destruct (String.eqb_spec z "") as [->|Hne].
  - exists zc. split; [exact Hzc|]. intros rel Hrel.
    rewrite (Hjoin rel Hrel). change ("" ++ rel) with rel. rewrite Hrel.
    by rewrite (Hjoinc rel Hrel).
  - destruct (String.prefix "/" z) eqn:Habs.
    + exists z. split; [exact Hz|]. intros rel Hrel.
      rewrite (Hjoin rel Hrel), (prefix_slash_app z rel Hne), Habs. reflexivity.
    + exists (zc ++ z). split; [by apply slash_ended_app|]. intros rel Hrel.
      rewrite (Hjoin rel Hrel), (prefix_slash_app z rel Hne), Habs.
      rewrite Hjoinc by (by rewrite (prefix_slash_app z rel Hne)).
      by rewrite string_app_assoc.
Qed.

Lemma py_split_go_app (sep : ascii) (a b cur : string) :
  py_split_go sep (a ++ String sep b) cur
  = (py_split_go sep a cur ++ py_split_go sep b "")%list.
Proof.
  revert cur. induction a as [|x a IH]; intros cur.
  - change ("" ++ String sep b) with (String sep b).
    cbn [py_split_go]. rewrite Ascii.eqb_refl. reflexivity.
  - change (String x a ++ String sep b) with (String x (a ++ String sep b)).
    cbn [py_split_go]. destruct (Ascii.eqb x sep).
    + rewrite IH. reflexivity.
    + apply IH.
Qed.

Lemma normpath_go_app (absolute : bool) (l1 l2 stack : list string) :
  normpath_go absolute (l1 ++ l2) stack
  = normpath_go absolute l2 (normpath_go absolute l1 stack).
Proof.
  revert stack. induction l1 as [|part l1 IH]; intros stack; [reflexivity|].
  cbn [app normpath_go].
  destruct (String.eqb part "" || String.eqb part "."); [apply IH|].
  destruct (String.eqb part ".."); [|apply IH].
  destruct stack as [|top below]; [apply IH|].
  destruct (String.eqb top ".."); apply IH.
Qed.

Lemma concat_cons (sep x : string) (xs : list string) :
  xs ≠ [] → String.concat sep (x :: xs) = x ++ sep ++ String.concat sep xs.
Proof. destruct xs; [done|reflexivity]. Qed.

Lemma concat_snoc_inj (sep : string) (l : list string) (a b : string) :
  String.concat sep (l ++ [a]) = String.concat sep (l ++ [b]) → a = b.
Proof.
  induction l as [|x l IH]; [done|].
  cbn [app]. rewrite !concat_cons by (by destruct l).
  intros H. apply string_app_inv_head, string_app_inv_head in H. by apply IH.
Qed.

Lemma concat_snoc_nonempty (sep : string) (l : list string) (a : string) :
  a ≠ "" → String.concat sep (l ++ [a]) ≠ "".
Proof.
  intros Ha. induction l as [|x l IH]; [done|].
  cbn [app]. rewrite concat_cons by (by destruct l).
  intros H. apply string_app_empty, string_app_empty in H. by apply IH.
Qed.

(** Two files of the schema directory have different absolute paths
    when their names differ, wherever the module is installed and
    whatever the working directory is. *)
Lemma schema_files_differ (cwd dir rel1 rel2 name1 name2 : string) :
  String.prefix "/" rel1 = false → String.prefix "/" rel2 = false →
  py_split "/" rel1 = [".."; "schemas"; name1] →
  py_split "/" rel2 = [".."; "schemas"; name2] →
  (∀ st, normpath_go true ["schemas"; name1] st = name1 :: "schemas" :: st) →
  (∀ st, normpath_go false ["schemas"; name1] st = name1 :: "schemas" :: st) →
  (∀ st, normpath_go true ["schemas"; name2] st = name2 :: "schemas" :: st) →
  (∀ st, normpath_go false ["schemas"; name2] st = name2 :: "schemas" :: st) →
  name1 ≠ "" → name2 ≠ "" → name1 ≠ name2 →
  os_path_abspath cwd (os_path_join dir rel1)
  ≠ os_path_abspath cwd (os_path_join dir rel2).
Proof.
  intros Hrel1 Hrel2 Hsplit1 Hsplit2 Ht1 Hf1 Ht2 Hf2 Hn1 Hn2 Hne.
  destruct (abspath_argument cwd dir) as (y & Hy & Habs).
  rewrite (Habs rel1 Hrel1), (Habs rel2 Hrel2).
  assert (Hshape : ∃ (absolute : bool) (front : list string),
            (∀ rel, String.prefix "/" rel = false →
               String.prefix "/" (y ++ rel) = absolute)
            ∧ ∀ rel, py_split "/" (y ++ rel) = (front ++ py_split "/" rel)%list).
  { destruct Hy as [->|[fy ->]].
    - exists false, []. split; [intros rel Hrel; exact Hrel|reflexivity].
    - exists (String.prefix "/" (fy ++ "/")), (py_split "/" fy). split.
      + intros rel _. apply prefix_slash_app. by destruct fy.
      + intros rel. unfold py_split. rewrite string_app_assoc.
        apply py_split_go_app. }
  destruct Hshape as (absolute & front & Hprefix & Hsplit).
  unfold os_path_normpath.
  rewrite (Hprefix rel1 Hrel1), (Hprefix rel2 Hrel2), !Hsplit, Hsplit1, Hsplit2.
  rewrite !normpath_go_app.
  change [".."; "schemas"; name1] with ([".."] ++ ["schemas"; name1])%list.
  change [".."; "schemas"; name2] with ([".."] ++ ["schemas"; name2])%list.
  rewrite !normpath_go_app.
  set (st := normpath_go absolute [".."] (normpath_go absolute front [])).
  assert (H1 : normpath_go absolute ["schemas"; name1] st = name1 :: "schemas" :: st)
    by (destruct absolute; auto).
  assert (H2 : normpath_go absolute ["schemas"; name2] st = name2 :: "schemas" :: st)
    by (destruct absolute; auto).
  rewrite H1, H2. cbn [List.rev].
  rewrite <- !app_assoc. cbn [app].
  change (List.rev st ++ ["schemas"; name1])%list
    with (List.rev st ++ ["schemas"] ++ [name1])%list.
  change (List.rev st ++ ["schemas"; name2])%list
    with (List.rev st ++ ["schemas"] ++ [name2])%list.
  rewrite !app_assoc.
  set (l := (List.rev st ++ ["schemas"])%list).
  unfold py_join.
  pose proof (concat_snoc_nonempty "/" l name1 Hn1) as Hb1.
  pose proof (concat_snoc_nonempty "/" l name2 Hn2) as Hb2.
  destruct absolute.
  - intros H. apply string_app_inv_head in H.
    by apply concat_snoc_inj in H.
  - destruct (String.eqb_spec (String.concat "/" (l ++ [name1])) ""); [done|].
    destruct (String.eqb_spec (String.concat "/" (l ++ [name2])) ""); [done|].
    intros H. by apply concat_snoc_inj in H.
Qed.

(** ** The resolver, the constructor and the methods *)

Section MoreFacts.

Context `{Codec : SchemaCodec} `{Broker : BrokerClient}.

Implicit Types (w : World) (self : AlertConsumer) (msg : Message).

(** X1. When the request for the schema fails, by a timeout, a
    connection error or too many redirects, the resolver prints the two
    notices, the second naming the default file, writes no file, and
    returns what the default file parses to; a default file that is
    missing or does not parse raises, there being nothing to fall back
    to. *)
Theorem request_failure_uses_default w (why : request_failure) :
  remote w = HttpFailure why →
  ∃ evs,
    fst (_get_alert_schema None w) =
      match files w !! default_schema_path w with
      | None => Raise (OSError (default_schema_path w))
      | Some content => parsed content
      end
    ∧ stdout (snd (_get_alert_schema None w))
        = (stdout w ++ [getting_notice; fallback_notice w])%list
    ∧ files (snd (_get_alert_schema None w)) = files w
    ∧ trace (snd (_get_alert_schema None w))
        = (trace w ++ [EvPrint getting_notice; EvHttpGet schema_url 1;
                       EvPrint (fallback_notice w);
                       EvOpenRead (default_schema_path w)] ++ evs)%list
    ∧ (evs = [] ∨ evs = [EvParseSchema]).
Proof.
  intros Hremote. rewrite (get_alert_schema_fallback w why Hremote).
  rewrite load_schema_unfold. simpl files.
  destruct (files w !! default_schema_path w) as [content|].
  - destruct (json_loads content) as [j|] eqn:Hj.
    + exists [EvParseSchema]. simpl. rewrite <- !app_assoc. repeat split; auto.
    + exists []. simpl. rewrite <- !app_assoc. repeat split; auto.
  - exists []. simpl. rewrite <- !app_assoc. repeat split; auto.
Qed.

(** X2. When the server answers but the cache file cannot be opened
    for writing, the error of [open] reaches the caller: the resolver
    does not fall back to the default file, reads nothing and parses
    nothing. *)
Theorem cache_write_failure_is_raised w (code : Z) (body : string) :
  remote w = HttpResponse code body →
  schema_cache_path w ∈ unwritable w →
  fst (_get_alert_schema None w) = Raise (OSError (schema_cache_path w))
  ∧ files (snd (_get_alert_schema None w)) = files w
  ∧ stdout (snd (_get_alert_schema None w)) = (stdout w ++ [getting_notice])%list
  ∧ trace (snd (_get_alert_schema None w))
      = (trace w ++ [EvPrint getting_notice; EvHttpGet schema_url 1;
                     EvOpenWrite (schema_cache_path w)])%list.
Proof.
  intros Hremote Hun.
  rewrite (get_alert_schema_unwritable w code body Hremote Hun). simpl.
  rewrite <- !app_assoc. repeat split; auto.
Qed.

(** X3. When the server answers with a status code from 200 to 299,
    the body replaces whatever the cache file held, and what the
    resolver returns is what the body parses to: neither the earlier
    content of the cache file nor the default file has a part in it, and
    a body that is not a schema raises. *)
Theorem fetched_schema_is_cached_and_parsed w (code : Z) (body : string) :
  remote w = HttpResponse code body →
  (200 ≤ code < 300)%Z →
  schema_cache_path w ∉ unwritable w →
  fst (_get_alert_schema None w) = parsed body
  ∧ files (snd (_get_alert_schema None w)) !! schema_cache_path w = Some body
  ∧ (∀ path, path ≠ schema_cache_path w →
       files (snd (_get_alert_schema None w)) !! path = files w !! path)
  ∧ stdout (snd (_get_alert_schema None w)) = (stdout w ++ [getting_notice])%list.
Proof.
  intros Hremote _ Hwr.
  rewrite (get_alert_schema_fetched w code body Hremote Hwr).
  rewrite load_schema_unfold. simpl files. rewrite lookup_insert_eq.
  destruct (json_loads body) as [j|] eqn:Hj; simpl;
    (split; [reflexivity|]); (split; [apply lookup_insert_eq|]);
    (split; [intros path Hne; by apply lookup_insert_ne|reflexivity]).
Qed.

(** What resolution leaves alone and what it adds to the trace, for
    every path and every world. *)
Lemma get_alert_schema_frame (schema_path : option string) w :
  kafka (snd (_get_alert_schema schema_path w)) = kafka w
  ∧ remote (snd (_get_alert_schema schema_path w)) = remote w
  ∧ ∃ evs,
      trace (snd (_get_alert_schema schema_path w)) = (trace w ++ evs)%list
      ∧ Forall resolution_event evs.
Proof.
  assert (Hload : ∀ path w0,
            kafka (snd (load_schema path w0)) = kafka w0
            ∧ remote (snd (load_schema path w0)) = remote w0
            ∧ ∃ evs, trace (snd (load_schema path w0)) = (trace w0 ++ evs)%list
                     ∧ Forall resolution_event evs).
  { intros path w0. rewrite load_schema_unfold.
    destruct (files w0 !! path) as [content|].
    - destruct (json_loads content) as [j|]; simpl.
      + split; [reflexivity|]. split; [reflexivity|].
        exists [EvOpenRead path; EvParseSchema].
        split; [by rewrite <- app_assoc|repeat constructor].
      + split; [reflexivity|]. split; [reflexivity|].
        exists [EvOpenRead path]. split; [reflexivity|repeat constructor].
    - simpl. split; [reflexivity|]. split; [reflexivity|].
      exists [EvOpenRead path]. split; [reflexivity|repeat constructor]. }
  destruct schema_path as [path|].
  - rewrite get_alert_schema_given. apply Hload.
  - destruct (remote w) as [code body|why] eqn:Hremote.
    + destruct (decide (schema_cache_path w ∈ unwritable w)) as [Hun|Hwr].
      * rewrite (get_alert_schema_unwritable w code body Hremote Hun). simpl.
        split; [reflexivity|]. split; [exact Hremote|].
        eexists. split; [rewrite <- !app_assoc; reflexivity|repeat constructor].
      * rewrite (get_alert_schema_fetched w code body Hremote Hwr).
        destruct (Hload (schema_cache_path w)
                    (set_files (<[schema_cache_path w:=body]> (files w))
                       (emit (EvOpenWrite (schema_cache_path w))
                          (emit (EvHttpGet schema_url 1)
                             (set_stdout (stdout w ++ [getting_notice])
                                (emit (EvPrint getting_notice) w))))))
          as (Hk & Hr & evs & Htr & Hevs).
        rewrite Hk, Hr, Htr. simpl.
        split; [reflexivity|]. split; [exact Hremote|].
        exists ([EvPrint getting_notice; EvHttpGet schema_url 1;
                 EvOpenWrite (schema_cache_path w)] ++ evs)%list.
        split; [by rewrite <- !app_assoc|].
        apply Forall_app. split; [repeat constructor|exact Hevs].
    + rewrite (get_alert_schema_fallback w why Hremote).
      destruct (Hload (default_schema_path w)
                  (set_stdout (stdout w ++ [getting_notice; fallback_notice w])
                     (emit (EvPrint (fallback_notice w))
                        (emit (EvHttpGet schema_url 1)
                           (emit (EvPrint getting_notice) w)))))
        as (Hk & Hr & evs & Htr & Hevs).
      rewrite Hk, Hr, Htr. simpl.
      split; [reflexivity|]. split; [exact Hremote|].
      exists ([EvPrint getting_notice; EvHttpGet schema_url 1;
               EvPrint (fallback_notice w)] ++ evs)%list.
      split; [by rewrite <- !app_assoc|].
      apply Forall_app. split; [repeat constructor|exact Hevs].
Qed.

(** X4. Resolution without a path prints its first notice, then sends
    one request to the schema URL with a timeout of one second, and
    sends no other: a failed request is not tried again. *)
Theorem one_request_no_retry w :
  ∃ evs,
    trace (snd (_get_alert_schema None w))
      = (trace w ++ [EvPrint getting_notice; EvHttpGet schema_url 1] ++ evs)%list
    ∧ Forall (fun ev => ∀ url timeout, ev ≠ EvHttpGet url timeout) evs.
Proof.
  assert (Hload : ∀ path w0,
            ∃ evs, trace (snd (load_schema path w0)) = (trace w0 ++ evs)%list
                   ∧ Forall (fun ev => ∀ url timeout, ev ≠ EvHttpGet url timeout) evs).
  { intros path w0. rewrite load_schema_unfold.
    destruct (files w0 !! path) as [content|].
    - destruct (json_loads content) as [j|]; simpl.
      + exists [EvOpenRead path; EvParseSchema].
        split; [by rewrite <- app_assoc|repeat constructor; discriminate].
      + exists [EvOpenRead path]. split; [reflexivity|repeat constructor; discriminate].
    - exists [EvOpenRead path]. split; [reflexivity|repeat constructor; discriminate]. }
  destruct (remote w) as [code body|why] eqn:Hremote.
  - destruct (decide (schema_cache_path w ∈ unwritable w)) as [Hun|Hwr].
    + rewrite (get_alert_schema_unwritable w code body Hremote Hun). simpl.
      exists [EvOpenWrite (schema_cache_path w)].
      split; [by rewrite <- !app_assoc|repeat constructor; discriminate].
    + rewrite (get_alert_schema_fetched w code body Hremote Hwr).
      destruct (Hload (schema_cache_path w)
                  (set_files (<[schema_cache_path w:=body]> (files w))
                     (emit (EvOpenWrite (schema_cache_path w))
                        (emit (EvHttpGet schema_url 1)
                           (set_stdout (stdout w ++ [getting_notice])
                              (emit (EvPrint getting_notice) w))))))
        as (evs & Htr & Hevs).
      rewrite Htr. simpl.
      exists (EvOpenWrite (schema_cache_path w) :: evs).
      split; [by rewrite <- !app_assoc|].
      constructor; [discriminate|exact Hevs].
  - rewrite (get_alert_schema_fallback w why Hremote).
    destruct (Hload (default_schema_path w)
                (set_stdout (stdout w ++ [getting_notice; fallback_notice w])
                   (emit (EvPrint (fallback_notice w))
                      (emit (EvHttpGet schema_url 1)
                         (emit (EvPrint getting_notice) w)))))
      as (evs & Htr & Hevs).
    rewrite Htr. simpl.
    exists (EvPrint (fallback_notice w) :: evs).
    split; [by rewrite <- !app_assoc|].
    constructor; [discriminate|exact Hevs].
Qed.

(** X5. A constructed instance holds the topics given and the
    configuration built from the options; the client was asked for a
    consumer with that configuration and then to subscribe it to those
    topics, both after the schema was resolved, and for nothing else. *)
Theorem init_subscribes_after_resolution (topics : list string)
    (config : gmap string string) (schema : option string) self w w' :
  __init__ topics config schema w = (Ok self, w') →
  _topics self = topics
  ∧ _get_kafka_config config = Ok (_kafka_config self)
  ∧ ∃ evs,
      trace w' = (trace w ++ evs
                  ++ [EvConsumerNew (_kafka_config self); EvSubscribe topics])%list
      ∧ Forall resolution_event evs.
Proof.
  intros Hinit.
  unfold __init__ in Hinit. rewrite bind_unfold in Hinit. unfold lift in Hinit.
  destruct (_get_kafka_config config) as [kc|e]; [|discriminate].
  rewrite bind_unfold in Hinit.
  destruct (get_alert_schema_frame schema w) as (_ & _ & evs & Htr & Hevs).
  destruct (_get_alert_schema schema w) as [[s|e] wa]; [|discriminate].
  rewrite bind_unfold in Hinit.
  pose proof (kafka_call_trace (EvConsumerNew kc) (kafka_Consumer kc) wa) as Hnew.
  destruct (kafka_call (EvConsumerNew kc) (kafka_Consumer kc) wa)
    as [[consumer|e] wb]; [|discriminate].
  rewrite bind_unfold in Hinit.
  pose proof (kafka_call_trace (EvSubscribe topics)
                (kafka_subscribe consumer topics) wb) as Hsub.
  destruct (kafka_call (EvSubscribe topics) (kafka_subscribe consumer topics) wb)
    as [[[]|e] wc]; [|discriminate].
  injection Hinit as <- <-. simpl in *.
  split; [reflexivity|]. split; [reflexivity|].
  exists evs. split; [|exact Hevs].
  rewrite Hsub, Hnew, Htr, <- !app_assoc. reflexivity.
Qed.

(** X6. When the options are complete but the schema cannot be
    resolved, construction raises the error of the resolution and the
    client is never called: no consumer is created, so none is left
    open. *)
Theorem init_schema_failure_opens_nothing (topics : list string)
    (config kc : gmap string string) (schema : option string) w (e : exn) w' :
  _get_kafka_config config = Ok kc →
  _get_alert_schema schema w = (Raise e, w') →
  __init__ topics config schema w = (Raise e, w')
  ∧ kafka w' = kafka w
  ∧ ∃ evs, trace w' = (trace w ++ evs)%list ∧ Forall resolution_event evs.
Proof.
  intros Hcfg Hres.
  destruct (get_alert_schema_frame schema w) as (Hk & _ & evs & Htr & Hevs).
  rewrite Hres in Hk, Htr. simpl in Hk, Htr.
  split; [|split; [exact Hk|by exists evs]].
  unfold __init__. rewrite bind_unfold. unfold lift. rewrite Hcfg.
  rewrite bind_unfold, Hres. reflexivity.
Qed.

(** X7. The builder raises only for a missing [group_id]: with
    [group_id] present it returns a configuration, whatever else the
    options hold or lack. *)
Theorem get_kafka_config_raises_iff (config : gmap string string) :
  (∃ e, _get_kafka_config config = Raise e) ↔ config !! "group_id" = None.
Proof.
  rewrite get_kafka_config_unfold.
  destruct (config !! "group_id") as [g|]; split.
  - intros [e He]. discriminate.
  - discriminate.
  - reflexivity.
  - intros _. by eexists.
Qed.

(** X8. The configuration depends on four options only: two option
    mappings that agree on [username], [password], [group_id] and
    [bootstrap.servers] give the same result. *)
Theorem get_kafka_config_reads_four_options (config1 config2 : gmap string string) :
  Forall (fun k => config1 !! k = config2 !! k)
    ["username"; "password"; "group_id"; "bootstrap.servers"] →
  _get_kafka_config config1 = _get_kafka_config config2.
Proof.
  intros Hsame. rewrite !get_kafka_config_unfold.
  apply Forall_cons in Hsame as [-> Hsame].
  apply Forall_cons in Hsame as [-> Hsame].
  apply Forall_cons in Hsame as [-> Hsame].
  apply Forall_cons in Hsame as [-> _].
  reflexivity.
Qed.


(** X10. When the client delivers no message to [consume], as on a
    timeout, [consume] returns the empty list and decodes nothing. *)
Theorem consume_no_message self (n : Z) (timeout : Time) w (k' : Kafka) :
  kafka_consume (_consumer self) n timeout (kafka w) = (inr [], k') →
  consume self n timeout w =
    (Ok [], set_kafka k' (emit (EvConsume n timeout) w)).
Proof.
  intros Hcall. rewrite consume_unfold, bind_unfold. unfold kafka_call.
  rewrite Hcall. reflexivity.
Qed.

Lemma emit_all_kafka (evs : list Event) w : kafka (emit_all evs w) = kafka w.
Proof.
  revert w. induction evs as [|ev evs IH]; intros w; [reflexivity|].
  simpl. rewrite IH. reflexivity.
Qed.

(** The loop stops at the first payload that does not decode. *)
Lemma consume_loop_stops self (before after : list Message) (bad : Message)
    alerts w :
  Forall (fun msg => is_Some (read_datum (_parsed_schema self) (payload msg))) before →
  read_datum (_parsed_schema self) (payload bad) = None →
  for_in (before ++ bad :: after)%list alerts (consume_body self) w =
    (Raise DecodeError,
     emit_all (decode_events (_parsed_schema self) (before ++ [bad])%list) w).
Proof.
  intros Hbefore Hbad. revert alerts w.
  induction Hbefore as [|msg before [d Hd] _ IH]; intros alerts w.
  - simpl. rewrite bind_unfold, consume_body_unfold, Hbad. reflexivity.
  - simpl. rewrite bind_unfold, consume_body_unfold, Hd. rewrite IH. reflexivity.
Qed.

(** X11. When one payload of a batch does not decode, [consume] raises
    the error of the decoder and returns no pair at all, not even for
    the messages before it; the messages after it are not decoded; and
    the whole batch has been taken from the client. *)
Theorem consume_bad_payload_loses_batch self (n : Z) (timeout : Time) w
    (before after : list Message) (bad : Message) (k' : Kafka) :
  kafka_consume (_consumer self) n timeout (kafka w)
    = (inr (before ++ bad :: after)%list, k') →
  Forall (fun msg => is_Some (read_datum (_parsed_schema self) (payload msg))) before →
  read_datum (_parsed_schema self) (payload bad) = None →
  consume self n timeout w =
    (Raise DecodeError,
     emit_all (decode_events (_parsed_schema self) (before ++ [bad])%list)
       (set_kafka k' (emit (EvConsume n timeout) w)))
  ∧ kafka (snd (consume self n timeout w)) = k'.
Proof.
  intros Hcall Hbefore Hbad.
  assert (Hrun : consume self n timeout w =
            (Raise DecodeError,
             emit_all (decode_events (_parsed_schema self) (before ++ [bad])%list)
               (set_kafka k' (emit (EvConsume n timeout) w)))).
  { rewrite consume_unfold, bind_unfold. unfold kafka_call. rewrite Hcall.
    apply consume_loop_stops; assumption. }
  split; [exact Hrun|]. rewrite Hrun. simpl. apply emit_all_kafka.
Qed.

(** X12. [AlertError] from [poll] means a broker error and nothing
    else: when [poll] raises it, the client delivered a message that
    carries an error, and the text is the one built from that message.
    A failure of the client or of the decoder is raised as another
    error. *)
Theorem alert_error_means_broker_error self (timeout : Time) w (text : string) w' :
  poll self timeout w = (Raise (AlertError text), w') →
  ∃ msg (e : KafkaError) (k' : Kafka),
    kafka_poll (_consumer self) timeout (kafka w) = (inr (Some msg), k')
    ∧ msg_error msg = Some e
    ∧ text = poll_error_message msg.
Proof.
  unfold poll. rewrite bind_unfold. unfold kafka_call.
  destruct (kafka_poll (_consumer self) timeout (kafka w)) as [[err|[msg|]] k']
    eqn:Hpoll; try discriminate.
  destruct (msg_error msg) as [e|] eqn:He.
  - cbn [py_truthy_error]. unfold raise. intros [= <- _].
    exists msg, e, k'. auto.
  - cbn [py_truthy_error]. rewrite bind_unfold, decode_avro_alert_unfold.
    destruct (read_datum _ _); discriminate.
Qed.

(** X13. [consume] never raises [AlertError], whatever the client
    delivers or raises. *)
Theorem consume_never_raises_alert_error self (n : Z) (timeout : Time) w
    (text : string) :
  fst (consume self n timeout w) ≠ Raise (AlertError text).
Proof.
  rewrite consume_unfold, bind_unfold. unfold kafka_call.
  destruct (kafka_consume (_consumer self) n timeout (kafka w)) as [[err|msgs] k'];
    [discriminate|].
  destruct (decide (Forall (fun msg =>
              is_Some (read_datum (_parsed_schema self) (payload msg))) msgs))
    as [Hall|Hnot].
  - destruct (consume_loop_ok self msgs []
                (set_kafka k' (emit (EvConsume n timeout) w)) Hall)
      as (pairs & _ & ->). discriminate.
  - apply not_Forall_Exists in Hnot; [|intros msg; apply _].
    assert (Hex : Exists (fun msg =>
              read_datum (_parsed_schema self) (payload msg) = None) msgs).
    { eapply Exists_impl; [exact Hnot|]. intros msg Hm. simpl in Hm.
      destruct (read_datum (_parsed_schema self) (payload msg)); [|reflexivity].
      exfalso. apply Hm. eauto. }
    destruct (consume_loop_fail self msgs []
                (set_kafka k' (emit (EvConsume n timeout) w)) Hex)
      as (before & _ & ->). discriminate.
Qed.

Lemma with_consumer_unfold {A} self (body : AlertConsumer → M A) w :
  with_consumer self body w =
    match body self w with
    | (Ok a, w') =>
        match __exit__ self w' with
        | (Ok _, w'') => (Ok a, w'')
        | (Raise e', w'') => (Raise e', w'')
        end
    | (Raise e, w') =>
        match __exit__ self w' with
        | (Ok _, w'') => (Raise e, w'')
        | (Raise e', w'') => (Raise e', w'')
        end
    end.
Proof. reflexivity. Qed.

(** X14. Used in a [with] statement, the instance itself is bound, and
    the consumer is closed once, after the body, whether the body
    returns or raises.  When the close succeeds the statement ends as
    the body did: its value is returned, its exception is raised
    again. *)
Theorem with_closes_once {A} self (body : AlertConsumer → M A) w :
  trace (snd (with_consumer self body w))
    = (trace (snd (body self w)) ++ [EvClose])%list
  ∧ (∀ k', kafka_close (_consumer self) (kafka (snd (body self w))) = (inr (), k') →
       fst (with_consumer self body w) = fst (body self w)).
Proof.
  rewrite with_consumer_unfold.
  destruct (body self w) as [[a|e] wb]; simpl fst; simpl snd;
    unfold __exit__, kafka_call;
    destruct (kafka_close (_consumer self) (kafka wb)) as [[err|[]] k];
    (split; [reflexivity|]); intros k' Hk; try discriminate; reflexivity.
Qed.

(** X15. No method of an instance prints, writes or reads a file, or
    changes the working directory or what the schema URL answers: after
    any call, these are as before. *)
Theorem methods_leave_files_alone self (c : call) w :
  files (run_call self c w) = files w
  ∧ stdout (run_call self c w) = stdout w
  ∧ unwritable (run_call self c w) = unwritable w
  ∧ cwd (run_call self c w) = cwd w
  ∧ module_file (run_call self c w) = module_file w
  ∧ remote (run_call self c w) = remote w.
Proof.
  assert (Hall : ∀ evs w0,
            files (emit_all evs w0) = files w0
            ∧ stdout (emit_all evs w0) = stdout w0
            ∧ unwritable (emit_all evs w0) = unwritable w0
            ∧ cwd (emit_all evs w0) = cwd w0
            ∧ module_file (emit_all evs w0) = module_file w0
            ∧ remote (emit_all evs w0) = remote w0).
  { induction evs as [|ev evs IH]; intros w0; [by repeat split|].
    simpl. destruct (IH (emit ev w0)) as (-> & -> & -> & -> & -> & ->).
    by repeat split. }
  assert (Hcall : ∀ {A} ev (callee : Kafka → (string + A) * Kafka),
            files (snd (kafka_call ev callee w)) = files w
            ∧ stdout (snd (kafka_call ev callee w)) = stdout w
            ∧ unwritable (snd (kafka_call ev callee w)) = unwritable w
            ∧ cwd (snd (kafka_call ev callee w)) = cwd w
            ∧ module_file (snd (kafka_call ev callee w)) = module_file w
            ∧ remote (snd (kafka_call ev callee w)) = remote w).
  { intros A ev callee. unfold kafka_call.
    destruct (callee (kafka w)) as [[?|?] ?]; by repeat split. }
  destruct c as [timeout|n timeout| | |]; simpl.
  - unfold poll. rewrite bind_unfold. unfold kafka_call.
    destruct (kafka_poll (_consumer self) timeout (kafka w)) as [[err|[msg|]] k'];
      try (by repeat split).
    destruct (py_truthy_error (msg_error msg)); [by repeat split|].
    rewrite bind_unfold, decode_avro_alert_unfold.
    destruct (read_datum _ _); by repeat split.
  - rewrite consume_unfold, bind_unfold. unfold kafka_call.
    destruct (kafka_consume (_consumer self) n timeout (kafka w)) as [[err|msgs] k'];
      [by repeat split|].
    destruct (decide (Forall (fun msg =>
                is_Some (read_datum (_parsed_schema self) (payload msg))) msgs))
      as [Hok|Hnot].
    + destruct (consume_loop_ok self msgs []
                  (set_kafka k' (emit (EvConsume n timeout) w)) Hok)
        as (pairs & _ & ->). simpl snd.
      destruct (Hall (decode_events (_parsed_schema self) msgs)
                  (set_kafka k' (emit (EvConsume n timeout) w)))
        as (-> & -> & -> & -> & -> & ->). by repeat split.
    + apply not_Forall_Exists in Hnot; [|intros msg; apply _].
      assert (Hex : Exists (fun msg =>
                read_datum (_parsed_schema self) (payload msg) = None) msgs).
      { eapply Exists_impl; [exact Hnot|]. intros msg Hm. simpl in Hm.
        destruct (read_datum (_parsed_schema self) (payload msg)); [|reflexivity].
        exfalso. apply Hm. eauto. }
      destruct (consume_loop_fail self msgs []
                  (set_kafka k' (emit (EvConsume n timeout) w)) Hex)
        as (before & _ & ->). simpl snd.
      destruct (Hall (decode_events (_parsed_schema self) before)
                  (set_kafka k' (emit (EvConsume n timeout) w)))
        as (-> & -> & -> & -> & -> & ->). by repeat split.
  - apply Hcall.
  - by repeat split.
  - apply Hcall.
Qed.

(** X16. The cache file and the default file are different paths,
    wherever the module is installed and whatever the working directory
    is; so when the server answers, with a schema or not, the default
    schema file keeps its content. *)
Theorem fetch_keeps_default_file w :
  schema_cache_path w ≠ default_schema_path w
  ∧ ∀ (code : Z) (body : string),
      remote w = HttpResponse code body →
      files (snd (_get_alert_schema None w)) !! default_schema_path w
      = files w !! default_schema_path w.
Proof.
  assert (Hne : schema_cache_path w ≠ default_schema_path w).
  { unfold schema_cache_path, default_schema_path.
    apply (schema_files_differ _ _ _ _
             "distribution_schema.avsc" "fink_alert_schema.avsc");
      try reflexivity; try (intros st; reflexivity); discriminate. }
  split; [exact Hne|]. intros code body Hremote.
  destruct (decide (schema_cache_path w ∈ unwritable w)) as [Hun|Hwr].
  - rewrite (get_alert_schema_unwritable w code body Hremote Hun). reflexivity.
  - rewrite (get_alert_schema_fetched w code body Hremote Hwr).
    rewrite load_schema_unfold. simpl files. rewrite lookup_insert_eq.
    destruct (json_loads body); simpl; by apply lookup_insert_ne.
Qed.

End MoreFacts.
(** ** The consumer on the codec model *)

Section MoreAvroFacts.

Import Avro.

Context `{Broker : BrokerClient}.

#[local] Existing Instance avro_codec.

(** X17. Decoding reads one record and no more: bytes that follow the
    encoding of a record in the buffer do not change what
    [_decode_avro_alert] returns. *)
Theorem decode_ignores_trailing_bytes (s : schema) (record : datum)
    (junk : list byte) (pos : nat) (w : World) :
  well_formed s = true →
  sized record = true →
  validate s record = true →
  ∃ enc,
    Avro.schemaless_writer s record = Some enc
    ∧ _decode_avro_alert {| bio_buf := (enc ++ junk)%list; bio_pos := pos |} s w
      = (Ok record, emit (EvDecode s (enc ++ junk)%list) w).
Proof.
  intros Hwf Hsized Hvalid.
  destruct (AvroFacts.read_write_data s Hwf record junk Hsized Hvalid)
    as (enc & Hw & Hr).
  exists enc. split; [exact Hw|].
  rewrite decode_avro_alert_unfold. cbn [bio_buf read_datum avro_codec].
  unfold Avro.schemaless_reader. rewrite Hr. reflexivity.
Qed.

(** What the reader gives for the payload of a message that carries an
    encoded record. *)
Lemma payload_reads_back (s : schema) (record : datum) (msg : Message) :
  well_formed s = true →
  sized record = true →
  validate s record = true →
  msg_value msg = Avro.schemaless_writer s record →
  read_datum s (payload msg) = Some record.
Proof.
  intros Hwf Hsized Hvalid Hvalue.
  destruct (AvroFacts.read_write_data s Hwf record [] Hsized Hvalid)
    as (enc & Hw & Hr).
  rewrite app_nil_r in Hr.
  unfold payload. rewrite Hvalue. unfold Avro.schemaless_writer. rewrite Hw.
  change (@read_datum avro_codec s (default [] (Some enc)))
    with (fst <$> read_data s enc).
  rewrite Hr. reflexivity.
Qed.

(** X18. A record written with the schema of the instance and sent as
    the value of a message without error comes back from [poll], with
    the topic of the message. *)
Theorem poll_returns_encoded_record (self : AlertConsumer) (timeout : Time)
    (w : World) (k' : Kafka) (msg : Message) (record : datum) :
  kafka_poll (_consumer self) timeout (kafka w) = (inr (Some msg), k') →
  msg_error msg = None →
  well_formed (_parsed_schema self) = true →
  sized record = true →
  validate (_parsed_schema self) record = true →
  msg_value msg = Avro.schemaless_writer (_parsed_schema self) record →
  fst (poll self timeout w) = Ok (msg_topic msg, record).
Proof.
  intros Hpoll He Hwf Hsized Hvalid Hvalue.
  rewrite (poll_decodes self timeout w k' msg Hpoll He).
  rewrite (payload_reads_back _ record msg Hwf Hsized Hvalid Hvalue).
  reflexivity.
Qed.

(** X19. When every message of a batch carries a record written with
    the schema of the instance, [consume] returns these records, each
    with the topic of its message, in the order delivered, whether the
    messages carry errors or not. *)
Theorem consume_returns_encoded_records (self : AlertConsumer) (n : Z)
    (timeout : Time) (w : World) (k' : Kafka) (msgs : list Message)
    (records : list datum) :
  kafka_consume (_consumer self) n timeout (kafka w) = (inr msgs, k') →
  well_formed (_parsed_schema self) = true →
  Forall2 (carries (_parsed_schema self)) msgs records →
  fst (consume self n timeout w)
  = Ok (zip_with (fun msg record => (msg_topic msg, record)) msgs records).
Proof.
  intros Hcall Hwf Hcarry.
  rewrite consume_unfold, bind_unfold. unfold kafka_call. rewrite Hcall.
  assert (Hread : Forall2 (fun msg record =>
                    read_datum (_parsed_schema self) (payload msg) = Some record)
                    msgs records).
  { eapply Forall2_impl; [exact Hcarry|].
    intros msg record (Hsized & Hvalid & Hvalue).
    by apply payload_reads_back. }
  assert (Hall : Forall (fun msg =>
                   is_Some (read_datum (_parsed_schema self) (payload msg))) msgs).
  { clear -Hread. induction Hread; constructor; eauto. }
  destruct (consume_loop_ok self msgs []
              (set_kafka k' (emit (EvConsume n timeout) w)) Hall)
    as (pairs & Hpairs & ->).
  cbn [fst app]. f_equal. clear -Hpairs Hread.
  revert records Hread.
  induction Hpairs as [|msg [topic d] msgs pairs [Htopic Hd] _ IH];
    intros records Hread.
  - inversion Hread. reflexivity.
  - inversion Hread as [|? record ? records' Hrec Hrest]; subst.
    cbn [zip_with]. cbn [fst snd] in Htopic, Hd. rewrite Hrec in Hd.
    injection Hd as <-. rewrite Htopic. f_equal. by apply IH.
Qed.

End MoreAvroFacts.
(** ** Further runs on the instances *)

Section MoreRuns.

Import Avro.

#[local] Existing Instance avro_codec.
#[local] Existing Instance queue_broker.

Lemma request_failure_uses_default_witness :
  remote offline_world = HttpFailure ReqConnectionError
  ∧ files (snd (_get_alert_schema None offline_world)) = files offline_world
  ∧ stdout (snd (_get_alert_schema None offline_world))
    = (stdout offline_world ++ [getting_notice; fallback_notice offline_world])%list.
Proof.
  split; [reflexivity|].
  destruct (request_failure_uses_default offline_world ReqConnectionError eq_refl)
    as (evs & _ & Hout & Hfiles & _).
  split; [exact Hfiles|exact Hout].
Defined.

Lemma cache_file_readonly : schema_cache_path readonly_world ∈ unwritable readonly_world.
Proof.
  replace (schema_cache_path readonly_world) with cache_file by reflexivity.
  apply elem_of_singleton. reflexivity.
Qed.

Lemma cache_write_failure_is_raised_witness :
  remote readonly_world = HttpResponse 200 alert_schema_text
  ∧ schema_cache_path readonly_world ∈ unwritable readonly_world
  ∧ fst (_get_alert_schema None readonly_world)
    = Raise (OSError (schema_cache_path readonly_world))
  ∧ files (snd (_get_alert_schema None readonly_world)) = files readonly_world.
Proof.
  split; [reflexivity|]. split; [exact cache_file_readonly|].
  destruct (cache_write_failure_is_raised readonly_world 200 alert_schema_text
              eq_refl cache_file_readonly) as (Hfst & Hfiles & _).
  split; [exact Hfst|exact Hfiles].
Defined.

Lemma cache_file_writable : schema_cache_path served_world ∉ unwritable served_world.
Proof. apply not_elem_of_empty. Qed.

Lemma fetched_schema_is_cached_and_parsed_witness :
  remote served_world = HttpResponse 200 alert_schema_text
  ∧ (200 ≤ 200 < 300)%Z
  ∧ (schema_cache_path served_world ∉ unwritable served_world)
  ∧ fst (_get_alert_schema None served_world) = parsed alert_schema_text
  ∧ files (snd (_get_alert_schema None served_world)) !! schema_cache_path served_world
    = Some alert_schema_text.
Proof.
  assert (Hcode : (200 ≤ 200 < 300)%Z) by lia.
  split; [reflexivity|]. split; [exact Hcode|]. split; [exact cache_file_writable|].
  destruct (fetched_schema_is_cached_and_parsed served_world 200 alert_schema_text
              eq_refl Hcode cache_file_writable) as (Hfst & Hcache & _).
  split; [exact Hfst|exact Hcache].
Defined.

Lemma init_offline_run :
  __init__ example_topics anonymous_config None offline_world
  = (Ok example_consumer, constructed_world).
Proof. unfold constructed_world. exact (pair_from_fst _ _ init_offline). Qed.

Lemma init_subscribes_after_resolution_witness :
  __init__ example_topics anonymous_config None offline_world
    = (Ok example_consumer, constructed_world)
  ∧ _topics example_consumer = example_topics
  ∧ _get_kafka_config anonymous_config = Ok (_kafka_config example_consumer)
  ∧ ∃ evs,
      trace constructed_world
      = (trace offline_world ++ evs
         ++ [EvConsumerNew (_kafka_config example_consumer);
             EvSubscribe example_topics])%list
      ∧ Forall resolution_event evs.
Proof.
  split; [exact init_offline_run|].
  exact (init_subscribes_after_resolution example_topics anonymous_config None
           example_consumer offline_world constructed_world init_offline_run).
Defined.

Lemma not_found_resolution :
  _get_alert_schema None not_found_world
  = (Raise JSONDecodeError, snd (_get_alert_schema None not_found_world)).
Proof. apply pair_from_fst. reflexivity. Qed.

Lemma anonymous_config_built :
  _get_kafka_config anonymous_config = Ok (_kafka_config example_consumer).
Proof. reflexivity. Qed.

Lemma init_schema_failure_opens_nothing_witness :
  _get_kafka_config anonymous_config = Ok (_kafka_config example_consumer)
  ∧ _get_alert_schema None not_found_world
    = (Raise JSONDecodeError, snd (_get_alert_schema None not_found_world))
  ∧ __init__ example_topics anonymous_config None not_found_world
    = (Raise JSONDecodeError, snd (_get_alert_schema None not_found_world))
  ∧ kafka (snd (_get_alert_schema None not_found_world)) = kafka not_found_world.
Proof.
  split; [exact anonymous_config_built|]. split; [exact not_found_resolution|].
  destruct (init_schema_failure_opens_nothing example_topics anonymous_config
              (_kafka_config example_consumer) None not_found_world
              JSONDecodeError (snd (_get_alert_schema None not_found_world))
              anonymous_config_built not_found_resolution) as (Hinit & Hk & _).
  split; [exact Hinit|exact Hk].
Defined.

Lemma verbose_config_same_options :
  Forall (fun k => verbose_config !! k = anonymous_config !! k)
    ["username"; "password"; "group_id"; "bootstrap.servers"].
Proof. repeat constructor. Qed.

Lemma get_kafka_config_reads_four_options_witness :
  Forall (fun k => verbose_config !! k = anonymous_config !! k)
    ["username"; "password"; "group_id"; "bootstrap.servers"]
  ∧ _get_kafka_config verbose_config = _get_kafka_config anonymous_config.
Proof.
  split; [exact verbose_config_same_options|].
  exact (get_kafka_config_reads_four_options verbose_config anonymous_config
           verbose_config_same_options).
Defined.

Lemma good_message_decodes :
  read_datum (_parsed_schema example_consumer) (payload good_message)
  = Some nested_record.
Proof. vm_compute. reflexivity. Qed.

Lemma truncated_message_fails :
  read_datum (_parsed_schema example_consumer) (payload truncated_message) = None.
Proof. vm_compute. reflexivity. Qed.


Lemma consume_no_message_witness :
  kafka_consume (_consumer example_consumer) 5%Z 1%Z (kafka idle_world)
    = (inr [], [])
  ∧ consume example_consumer 5%Z 1%Z idle_world =
      (Ok [], set_kafka [] (emit (EvConsume 5%Z 1%Z) idle_world)).
Proof.
  split; [reflexivity|].
  exact (consume_no_message example_consumer 5%Z 1%Z idle_world [] eq_refl).
Defined.

Lemma good_message_alone_decodes :
  Forall (fun msg =>
            is_Some (read_datum (_parsed_schema example_consumer) (payload msg)))
    [good_message].
Proof. repeat constructor. rewrite good_message_decodes. by eexists. Qed.

Lemma consume_bad_payload_loses_batch_witness :
  kafka_consume (_consumer example_consumer) 5%Z 1%Z (kafka bad_batch_world)
    = (inr ([good_message] ++ truncated_message :: [good_message])%list, [])
  ∧ fst (consume example_consumer 5%Z 1%Z bad_batch_world) = Raise DecodeError
  ∧ kafka (snd (consume example_consumer 5%Z 1%Z bad_batch_world)) = [].
Proof.
  split; [reflexivity|].
  destruct (consume_bad_payload_loses_batch example_consumer 5%Z 1%Z bad_batch_world
              [good_message] [good_message] truncated_message [] eq_refl
              good_message_alone_decodes truncated_message_fails) as [Hrun Hk].
  split; [by rewrite Hrun|exact Hk].
Defined.

Lemma poll_failed_message_run :
  poll example_consumer 1%Z offline_world =
    (Raise (AlertError (poll_error_message failed_message)),
     set_kafka [good_message] (emit (EvPoll 1%Z) offline_world)).
Proof.
  exact (poll_error_raises example_consumer 1%Z offline_world [good_message]
           failed_message _ eq_refl eq_refl).
Qed.

Lemma alert_error_means_broker_error_witness :
  poll example_consumer 1%Z offline_world =
    (Raise (AlertError (poll_error_message failed_message)),
     set_kafka [good_message] (emit (EvPoll 1%Z) offline_world))
  ∧ ∃ msg (e : KafkaError) (k' : list Message),
      kafka_poll (_consumer example_consumer) 1%Z (kafka offline_world)
        = (inr (Some msg), k')
      ∧ msg_error msg = Some e
      ∧ poll_error_message failed_message = poll_error_message msg.
Proof.
  split; [exact poll_failed_message_run|].
  exact (alert_error_means_broker_error example_consumer 1%Z offline_world
           (poll_error_message failed_message) _ poll_failed_message_run).
Defined.

Lemma decode_ignores_trailing_bytes_witness :
  ∃ enc,
    schemaless_writer alert_schema nested_record = Some enc
    ∧ _decode_avro_alert
        {| bio_buf := (enc ++ [xde; xad; xbe; xef])%list; bio_pos := 5 |}
        alert_schema offline_world
      = (Ok nested_record,
         emit (EvDecode alert_schema (enc ++ [xde; xad; xbe; xef])%list) offline_world).
Proof.
  exact (decode_ignores_trailing_bytes alert_schema nested_record
           [xde; xad; xbe; xef] 5 offline_world eq_refl eq_refl eq_refl).
Defined.

Lemma poll_returns_encoded_record_witness :
  kafka_poll (_consumer example_consumer) 1%Z (kafka good_world)
    = (inr (Some good_message), [])
  ∧ msg_value good_message
    = schemaless_writer (_parsed_schema example_consumer) nested_record
  ∧ fst (poll example_consumer 1%Z good_world)
    = Ok (msg_topic good_message, nested_record).
Proof.
  split; [reflexivity|]. split; [reflexivity|].
  exact (poll_returns_encoded_record example_consumer 1%Z good_world []
           good_message nested_record eq_refl eq_refl eq_refl eq_refl eq_refl eq_refl).
Defined.

Lemma batch_carries_records :
  Forall2 (carries (_parsed_schema example_consumer))
    [failed_message; good_message] [nested_record; nested_record].
Proof. repeat constructor. Qed.

Lemma consume_returns_encoded_records_witness :
  kafka_consume (_consumer example_consumer) 5%Z 1%Z (kafka offline_world)
    = (inr [failed_message; good_message], [])
  ∧ Forall2 (carries (_parsed_schema example_consumer))
      [failed_message; good_message] [nested_record; nested_record]
  ∧ fst (consume example_consumer 5%Z 1%Z offline_world)
    = Ok [(Some "alerts", nested_record); (Some "alerts", nested_record)].
Proof.
  split; [reflexivity|]. split; [exact batch_carries_records|].
  exact (consume_returns_encoded_records example_consumer 5%Z 1%Z offline_world
           [] [failed_message; good_message] [nested_record; nested_record]
           eq_refl eq_refl batch_carries_records).
Defined.

End MoreRuns.
